(** * NNUE trainer: HalfKP encoding, evaluation network, score mapping, export

    A shallow embedding of the core of the NNUE training application
    ([nnue_trainer.py], [model_eval.py]) together with the properties its
    specification states about it.

    - [HalfKP]   : [HalfKPFeatures._get_halfkp_features]
    - [Arch]     : [TrainingConfig], the layers built by [NNUE.__init__]
    - [Net]      : [NNUE.forward], [ModelEvaluator.evaluate_position],
                   [ChessDataset.__getitem__] (evaluation target)
    - [Exporter] : [NNUEExporter.export_stockfish_nnue] and its two writers

    - [Mirror], [Dataset], [Loading], [Training], [TrainerExport],
      [Compare] : the colour-reversed board, [ChessDataset],
      [DatabaseConnection.load_training_data], the checkpoints of
      [NNUETrainer.train], [NNUETrainer._export_nnue] and
      [ModelEvaluator.compare_with_engine]

    The definitions come first; the properties follow, one section per
    component. *)

From Stdlib Require Import ZArith Lia List Reals Lra String.
From Stdlib.Strings Require Import Byte.
From stdpp Require Import base decidable option list gmap strings pretty.

Local Open Scope Z_scope.

(* ===================================================================== *)
(** * HalfKP feature encoding *)
(* ===================================================================== *)

Module HalfKP.

(** ** The part of python-chess the encoder reads

    [chess.PAWN .. chess.KING], [chess.WHITE]/[chess.BLACK], a piece, and a
    board.  Squares are the integers 0..63 (a1 = 0, h8 = 63).  A board is
    read through [board.piece_map()] (a dict from squares to pieces),
    [board.king(color)] and [board.turn]. *)

Inductive PieceType := PAWN | KNIGHT | BISHOP | ROOK | QUEEN | KING.
Inductive Color := BLACK | WHITE.

#[global] Instance PieceType_eq_dec : EqDecision PieceType.
Proof. solve_decision. Defined.
#[global] Instance Color_eq_dec : EqDecision Color.
Proof. solve_decision. Defined.

Record Piece := mkPiece { piece_type : PieceType; color : Color }.

Record Board := mkBoard {
  piece_map : gmap Z Piece;   (* board.piece_map() *)
  promoted : gset Z;          (* board.promoted, a square mask *)
  turn : Color                (* board.turn *)
}.

(** [chess.square_mirror(square)]: [square ^ 0x38], the rank flip. *)
Definition square_mirror (square : Z) : Z := Z.lxor square 56.

Definition is_king_of (board : Board) (c : Color) (square : Z) : bool :=
  match piece_map board !! square with
  | Some p =>
      bool_decide (piece_type p = KING) && bool_decide (color p = c)
      && bool_decide (square ∉ promoted board)
  | None => false
  end.

(** Highest square below [n] that satisfies [f] (the [msb] of a mask). *)
Fixpoint msb_below (f : Z -> bool) (n : nat) : option Z :=
  match n with
  | O => None
  | S n' => if f (Z.of_nat n') then Some (Z.of_nat n') else msb_below f n'
  end.

(** [board.king(color)]: the most significant square of
    [occupied_co[color] & kings & ~promoted], or [None]. *)
Definition king (board : Board) (c : Color) : option Z :=
  msb_below (is_king_of board c) 64.

(** ** [HalfKPFeatures] *)

(** [self.piece_to_index] *)
Definition piece_to_index (t : PieceType) : Z :=
  match t with
  | PAWN => 0 | KNIGHT => 1 | BISHOP => 2
  | ROOK => 3 | QUEEN => 4 | KING => 5
  end.

(** The index expression of lines 117-122. *)
Definition feature_idx (king_square piece_color piece_type_idx square : Z) : Z :=
  king_square * 10 * 64 + piece_color * 6 * 64 + piece_type_idx * 64 + square.

(** A feature vector is a float32 array that only ever holds 0.0 and 1.0;
    [false] stands for 0.0 and [true] for 1.0. *)
Abbreviation FeatureVector := (list bool).

(** Square as seen from the perspective [c]. *)
Definition oriented (c : Color) (square : Z) : Z :=
  match c with BLACK => square_mirror square | WHITE => square end.

Definition piece_color (c : Color) (piece : Piece) : Z :=
  if decide (color piece = c) then 0 else 1.

Definition piece_feature_idx (c : Color) (king_square square : Z) (piece : Piece) : Z :=
  feature_idx king_square (piece_color c piece)
              (piece_to_index (piece_type piece)) (oriented c square).

(** One iteration of the loop over [board.piece_map().items()];
    [king_square] is already mirrored for black. *)
Definition encode_piece (c : Color) (king_square : Z)
    (square : Z) (piece : Piece) (features : FeatureVector) : FeatureVector :=
  if decide (piece_type piece = KING) then features
  else
    let idx := piece_feature_idx c king_square square piece in
    if decide (0 <= idx < 768) then <[Z.to_nat idx := true]> features
    else features.

Definition _get_halfkp_features (board : Board) (c : Color) : FeatureVector :=
  let features := replicate 768 false in
  match king board c with
  | None => features
  | Some king_square =>
      let king_square := oriented c king_square in
      map_fold (encode_piece c king_square) features (piece_map board)
  end.

(** [position_to_features], after [chess.Board(fen)] has parsed the FEN. *)
Definition position_to_features (board : Board) : FeatureVector * FeatureVector :=
  (_get_halfkp_features board WHITE, _get_halfkp_features board BLACK).

(** Number of set entries of a feature vector ([features.sum()]). *)
Definition popcount (features : FeatureVector) : nat :=
  length (filter (λ b, b = true) features).

(** Non-king pieces on the board. *)
Definition non_king_pieces (board : Board) : nat :=
  size (filter (λ kv, piece_type kv.2 ≠ KING) (piece_map board)).

(** The standard starting position,
    [rnbqkbnr/pppppppp/8/8/8/8/PPPPPPPP/RNBQKBNR w KQkq - 0 1]. *)
Definition back_rank : list PieceType :=
  [ROOK; KNIGHT; BISHOP; QUEEN; KING; BISHOP; KNIGHT; ROOK].

Definition rank_of (first : Z) (c : Color) (ts : list PieceType) : list (Z * Piece) :=
  imap (λ i t, (first + Z.of_nat i, mkPiece t c)) ts.

Definition starting_board : Board :=
  mkBoard
    (list_to_map
       (rank_of 0 WHITE back_rank ++ rank_of 8 WHITE (replicate 8 PAWN) ++
        rank_of 48 BLACK (replicate 8 PAWN) ++ rank_of 56 BLACK back_rank))
    ∅ WHITE.

(** The relation "entry [i] is the feature of some non-king piece" that the
    loop establishes, for a perspective [c] and an (oriented) king square. *)
Definition feature_of (c : Color) (king_square : Z) (m : gmap Z Piece) (i : nat) : Prop :=
  ∃ square piece,
    m !! square = Some piece ∧ piece_type piece ≠ KING ∧
    let idx := king_square * 10 * 64
               + (if decide (color piece = c) then 0 else 1) * 6 * 64
               + piece_to_index (piece_type piece) * 64
               + oriented c square in
    0 <= idx < 768 ∧ i = Z.to_nat idx.

(** A board with the white king on a1 and a white pawn on a2. *)
Definition corner_board : Board :=
  mkBoard (<[0 := mkPiece KING WHITE]> (<[8 := mkPiece PAWN WHITE]> ∅)) ∅ WHITE.

(** White king on b1, a white knight on c2 and a black pawn on h7. *)
Definition knight_board : Board :=
  mkBoard (<[1 := mkPiece KING WHITE]> (<[10 := mkPiece KNIGHT WHITE]>
            (<[55 := mkPiece PAWN BLACK]> ∅))) ∅ WHITE.

(** Black king on a8, white king on e1 and a white rook on b2, black to
    move. *)
Definition rook_board : Board :=
  mkBoard (<[56 := mkPiece KING BLACK]> (<[4 := mkPiece KING WHITE]>
            (<[9 := mkPiece ROOK WHITE]> ∅))) ∅ BLACK.

(** A board without any black king: white king on e1 only. *)
Definition lone_white_king : Board :=
  mkBoard (<[4 := mkPiece KING WHITE]> ∅) ∅ WHITE.

End HalfKP.


(* ===================================================================== *)
(** * Network architecture ([TrainingConfig], [NNUE.__init__]) *)
(* ===================================================================== *)

Module Arch.
Section Architecture.

(** The element type of the parameter tensors (float32 in the program). *)
Context {scalar : Type}.

(** The fields of [TrainingConfig] that the core reads. *)
Record TrainingConfig := mkConfig {
  input_size : Z;
  hidden_size : Z;
  output_size : Z;
  eval_scale : scalar
}.

(** [nn.Linear(in_features, out_features)]: [weight] has shape
    [out_features, in_features] (one row per output), [bias] has shape
    [out_features]. *)
Record Linear := mkLinear {
  in_features : Z;
  out_features : Z;
  weight : list (list scalar);
  bias : list scalar
}.

Definition Linear_shaped (l : Linear) : Prop :=
  Z.of_nat (length (weight l)) = out_features l ∧
  Forall (λ row, Z.of_nat (length row) = in_features l) (weight l) ∧
  Z.of_nat (length (bias l)) = out_features l.

(** The modules that occur in the two [nn.Sequential] containers. *)
Inductive Layer := LinearL (l : Linear) | ReLU | Tanh.

Definition Sequential := list Layer.

Record NNUE := mkNNUE {
  config : TrainingConfig;
  feature_transformer : Sequential;
  output_layers : Sequential
}.

(** [NNUE.__init__]: the containers and their order.  The four linear maps
    are passed in; [__init__] fixes their shapes, see [init_shapes]. *)
Definition NNUE_init (cfg : TrainingConfig) (ft0 ft2 out1 out3 : Linear) : NNUE :=
  {| config := cfg;
     feature_transformer := [LinearL ft0; ReLU; LinearL ft2];
     output_layers := [ReLU; LinearL out1; ReLU; LinearL out3; Tanh] |}.

Definition has_shape (l : Linear) (i o : Z) : Prop :=
  in_features l = i ∧ out_features l = o ∧ Linear_shaped l.

Definition init_shapes (cfg : TrainingConfig) (ft0 ft2 out1 out3 : Linear) : Prop :=
  has_shape ft0 (input_size cfg) (hidden_size cfg) ∧
  has_shape ft2 (hidden_size cfg) 32 ∧
  has_shape out1 32 32 ∧
  has_shape out3 32 1.

(** A linear layer of the given shape whose parameters all equal [v]. *)
Definition const_linear (i o : nat) (v : scalar) : Linear :=
  {| in_features := Z.of_nat i;
     out_features := Z.of_nat o;
     weight := replicate o (replicate i v);
     bias := replicate o v |}.

(** [named_parameters()] of a [Sequential] registered under [prefix]:
    for each child with parameters, ["prefix.i.weight"] then
    ["prefix.i.bias"]; the tensors are given flattened in C order. *)
Definition layer_parameters (prefix : string) (i : nat) (m : Layer)
    : list (string * list scalar) :=
  match m with
  | LinearL l =>
      let name := prefix +:+ "." +:+ pretty i in
      [(name +:+ ".weight", concat (weight l)); (name +:+ ".bias", bias l)]
  | ReLU | Tanh => []
  end.

Definition sequential_parameters (prefix : string) (s : Sequential)
    : list (string * list scalar) :=
  concat (imap (layer_parameters prefix) s).

(** [model.named_parameters()], in registration order. *)
Definition named_parameters (model : NNUE) : list (string * list scalar) :=
  sequential_parameters "feature_transformer" (feature_transformer model) ++
  sequential_parameters "output_layers" (output_layers model).

End Architecture.
Arguments TrainingConfig : clear implicits.
Arguments Linear : clear implicits.
Arguments Layer : clear implicits.
Arguments Sequential : clear implicits.
Arguments NNUE : clear implicits.
End Arch.

(* ===================================================================== *)
(** * Evaluation network and score mapping *)
(* ===================================================================== *)

Module Net.
Import HalfKP Arch.
Local Open Scope R_scope.

(** Tensors are read as vectors of real numbers.  The linear layers and the
    rectifier are the mathematical functions that [torch.nn] computes up to
    rounding; the final [nn.Tanh] is rounded to float32, because its
    saturation to exactly [1.0] and [-1.0] is visible in the scores. *)
Abbreviation vec := (list R).

Definition dot (w x : vec) : R := foldr Rplus 0 (zip_with Rmult w x).

(** The affine map [x @ weight.T + bias] of a linear layer. *)
Definition affine (l : Linear R) (x : vec) : vec :=
  zip_with (λ row b, dot row x + b) (weight l) (bias l).

(** [nn.Linear.forward]: [x @ weight.T + bias]; a wrong input length is a
    shape error. *)
Definition linear (l : Linear R) (x : vec) : option vec :=
  if decide (Z.of_nat (length x) = in_features l)
  then Some (affine l x)
  else None.

Definition relu (x : R) : R := Rmax 0 x.

(** ** The float32 result of [nn.Tanh]

    The exact hyperbolic tangent lies strictly between -1 and 1, but its
    float32 value does not: a float32 has 24 significant bits, the floats
    just below 1 are [2^-24] apart, and a tangent closer to 1 than [2^-25]
    is returned as exactly [1.0].  The output of the network is therefore
    modelled as the float32 nearest to the exact tangent. *)

(** Nearest integer, ties to the even one. *)
Definition round_half_even (r : R) : Z :=
  let n := Int_part r in
  let d := r - IZR n in
  if Rlt_dec d (1 / 2) then n
  else if Rlt_dec (1 / 2) d then (n + 1)%Z
  else if Z.even n then n else (n + 1)%Z.

(** The binary exponent of [a > 0]: [2^(binade a) <= a < 2^(binade a + 1)]. *)
Definition binade (a : R) : Z := Int_part (ln a / ln 2).

(** The float32 nearest to a real of magnitude below [2^128]
    (round to nearest, ties to even): 24 significant bits above the
    smallest normal exponent -126, the fixed spacing [2^-149] below it. *)
Definition float32_of_real (x : R) : R :=
  let a := Rabs x in
  if Rle_dec a 0 then 0
  else
    let e := Z.max (binade a) (-126) in
    let ulp := powerRZ 2 (e - 23) in
    let m := IZR (round_half_even (a / ulp)) * ulp in
    if Rle_dec 0 x then m else - m.

(** [torch.tanh] on a float32 tensor element. *)
Definition float32_tanh (x : R) : R := float32_of_real (tanh x).

Definition apply_layer (m : Layer R) (x : vec) : option vec :=
  match m with
  | LinearL l => linear l x
  | ReLU => Some (map relu x)
  | Tanh => Some (map float32_tanh x)
  end.

(** [nn.Sequential.forward]: the children in order. *)
Fixpoint sequential (s : Sequential R) (x : vec) : option vec :=
  match s with
  | [] => Some x
  | m :: s' => y ← apply_layer m x; sequential s' y
  end.

(** [NNUE.forward] *)
Definition forward (model : NNUE R) (x : vec) : option vec :=
  features ← sequential (feature_transformer model) x;
  sequential (output_layers model) features.

(** [torch.tensor(features, dtype=torch.float32)] *)
Definition tensor_of_features (features : FeatureVector) : vec :=
  map (λ b : bool, if b then 1 else 0) features.

(** [.item()]: the single element of a one-element tensor. *)
Definition item (t : vec) : option R :=
  match t with
  | [y] => Some y
  | _ => None
  end.

(** Lines 66-71 of [evaluate_position]: scale back to centipawns and flip
    for black to move. *)
Definition to_external_score (scale : R) (evaluation : R) (side : Color) : R :=
  let evaluation := evaluation * scale in
  match side with
  | BLACK => - evaluation
  | WHITE => evaluation
  end.

(** [ModelEvaluator.evaluate_position] on the parsed board. *)
Definition evaluate_position (model : NNUE R) (board : Board) : option R :=
  let '(white_features, black_features) := position_to_features board in
  let features :=
    match turn board with
    | WHITE => white_features
    | BLACK => black_features
    end in
  out ← forward model (tensor_of_features features);
  evaluation ← item out;
  Some (to_external_score (eval_scale (config model)) evaluation (turn board)).

(** [np.clip(a, lo, hi)] *)
Definition clip (a lo hi : R) : R := Rmin (Rmax a lo) hi.

(** Lines 150-157 of [ChessDataset.__getitem__]: flip the stored evaluation
    for black to move, then normalise and clip. *)
Definition to_training_target (scale : R) (evaluation : R) (side : Color) : R :=
  let evaluation :=
    match side with
    | WHITE => evaluation
    | BLACK => - evaluation
    end in
  clip (evaluation / scale) (-1) 1.

(** A 768/256 network with all parameters zero and the default scale. *)
Definition zero_config : TrainingConfig R :=
  {| input_size := 768; hidden_size := 256; output_size := 1; eval_scale := 361 |}.

Definition zero_model : NNUE R :=
  NNUE_init zero_config
    (const_linear 768 256 0) (const_linear 256 32 0)
    (const_linear 32 32 0) (const_linear 32 1 0).






End Net.

(* ===================================================================== *)
(** * Export to the binary artifact *)
(* ===================================================================== *)

Module Exporter.
Import Arch.

(** ** Files, console and exceptions *)

(** The exceptions that can arise inside the [try] block. *)
Inductive exn :=
  | OSError (strerror : string)
  | StructError (msg : string).

(** [str(e)] *)
Definition str_exn (e : exn) : string :=
  match e with
  | OSError s => s
  | StructError s => s
  end.

(** The part of the environment the export touches: the file at
    [output_path], the console, and the health of the device.  The device
    serves [io_budget] more calls ([open] or [write]) and fails every later
    one with [OSError(io_error)].  Writes are unbuffered; [io_calls] counts
    the calls attempted so far. *)
Record world := mkWorld {
  file : option (list byte);
  stdout : list string;
  io_budget : nat;
  io_error : string;
  io_calls : nat
}.

(** Computations that change the world and return or raise. *)
Definition IO (A : Type) : Type := world -> (exn + A) * world.

Definition ret {A} (a : A) : IO A := λ w, (inr a, w).
Definition raise {A} (e : exn) : IO A := λ w, (inl e, w).
Definition bind {A B} (m : IO A) (k : A -> IO B) : IO B :=
  λ w, match m w with
       | (inr a, w') => k a w'
       | (inl e, w') => (inl e, w')
       end.

(** [try: body  except Exception as e: handler(e)] *)
Definition try_except {A} (body : IO A) (handler : exn -> IO A) : IO A :=
  λ w, match body w with
       | (inr a, w') => (inr a, w')
       | (inl e, w') => handler e w'
       end.

Declare Scope io_scope.
Delimit Scope io_scope with io.
Notation "x <- m ;; k" := (bind m (λ x, k))
  (at level 100, m at next level, right associativity) : io_scope.
Notation "m ;; k" := (bind m (λ _, k))
  (at level 100, right associativity) : io_scope.
Local Open Scope io_scope.

(** [print(s)] *)
Definition print (s : string) : IO unit :=
  λ w, (inr tt, mkWorld (file w) (stdout w ++ [s]) (io_budget w) (io_error w) (io_calls w)).

(** One call to the device: it is counted, and it is served only while the
    budget lasts. *)
Definition device_call (effect : option (list byte) -> option (list byte)) : IO unit :=
  λ w, match io_budget w with
       | O => (inl (OSError (io_error w)),
               mkWorld (file w) (stdout w) O (io_error w) (S (io_calls w)))
       | S n => (inr tt,
                 mkWorld (effect (file w)) (stdout w) n (io_error w) (S (io_calls w)))
       end.

(** [open(output_path, 'wb')]: creates or truncates the file. *)
Definition open_wb : IO unit := device_call (λ _, Some []).

(** [f.write(data)] *)
Definition write (data : list byte) : IO unit :=
  device_call (λ content, Some (default [] content ++ data)).

(** ** [struct.pack] and [ndarray.tobytes] *)

Definition byte_of_Z (z : Z) : byte :=
  default "000"%byte (Byte.of_N (Z.to_N (z mod 256))).

(** The [n] low-order bytes of [z], least significant first. *)
Fixpoint le_bytes (n : nat) (z : Z) : list byte :=
  match n with
  | O => []
  | S n' => byte_of_Z z :: le_bytes n' (z / 256)
  end.

(** The text of the [struct.error] that [struct.pack('<I', z)] raises for
    a [z] outside [0, 2^32) (CPython 3.11, C [unsigned long] of 64 bits): a
    value that does not even fit an [unsigned long], that is a negative one
    or one from [2^64] on, is reported as out of range; a value that fits
    it names the format and its bounds. *)
Definition struct_error_I (z : Z) : string :=
  if decide (0 <= z < 2 ^ 64)
  then "'I' format requires 0 <= number <= 4294967295"
  else "argument out of range".

(** [struct.pack('<I', z)]: an unsigned 32-bit little-endian field. *)
Definition struct_pack_I (z : Z) : IO (list byte) :=
  if decide (0 <= z < 2 ^ 32) then ret (le_bytes 4 z)
  else raise (StructError (struct_error_I z)).

Inductive dtype := Int8 | Int16 | Int32.

Definition itemsize (d : dtype) : nat :=
  match d with Int8 => 1 | Int16 => 2 | Int32 => 4 end.

(** Python's [needle in name] on strings. *)
Fixpoint contains (needle name : string) : bool :=
  String.prefix needle name ||
  match name with
  | EmptyString => false
  | String _ rest => contains needle rest
  end.

(** A [for name, param in ...] loop whose body is [body]. *)
Fixpoint for_each {A} (l : list A) (body : A -> IO unit) : IO unit :=
  match l with
  | [] => ret tt
  | a :: l' => body a ;; for_each l' body
  end.

Section Writers.

Context {scalar : Type}.

(** [astype d x]: the integer that numpy's cast to the signed integer
    type [d] produces from the element [x].  The cast always produces a
    value; which one is left to the platform. *)
Variable astype : dtype -> scalar -> Z.

(** [a.astype(d).tobytes()] on a little-endian host: every element in
    two's complement on [itemsize d] bytes. *)
Definition tobytes (d : dtype) (a : list scalar) : list byte :=
  concat (map (λ x, le_bytes (itemsize d) (astype d x)) a).

Record NNUEExporter := mkExporter {
  exp_model : NNUE scalar;
  exp_config : TrainingConfig scalar
}.

Definition _write_feature_transformer (self : NNUEExporter) : IO unit :=
  for_each (named_parameters (exp_model self)) (λ '(name, param),
    if contains "feature_transformer.0.weight" name then
      write (tobytes Int16 param)
    else if contains "feature_transformer.0.bias" name then
      write (tobytes Int32 param)
    else ret tt).

Definition _write_output_layers (self : NNUEExporter) : IO unit :=
  for_each (named_parameters (exp_model self)) (λ '(name, param),
    if contains "output_layers" name then
      if contains "weight" name then
        write (tobytes Int8 param)
      else if contains "bias" name then
        write (tobytes Int32 param)
      else ret tt
    else ret tt).

(** [f"NNUE {input_size}->{hidden_size}->1"] *)
Definition description (cfg : TrainingConfig scalar) : string :=
  "NNUE " +:+ pretty (input_size cfg) +:+ "->" +:+ pretty (hidden_size cfg) +:+ "->1".

(** [s.encode('utf-8')]; the description only has ASCII characters. *)
Definition encode_utf8 (s : string) : list byte := list_byte_of_string s.

(** The [with open(...) as f:] block. *)
Definition export_body (self : NNUEExporter) : IO unit :=
  open_wb ;;
  write (list_byte_of_string "NNUE") ;;
  version <- struct_pack_I 0x7AF32F16 ;;
  write version ;;
  arch <- struct_pack_I 177 ;;
  write arch ;;
  let description_bytes := encode_utf8 (description (exp_config self)) in
  len <- struct_pack_I (Z.of_nat (length description_bytes)) ;;
  write len ;;
  write description_bytes ;;
  _write_feature_transformer self ;;
  _write_output_layers self.

Definition export_stockfish_nnue (self : NNUEExporter) (output_path : string) : IO unit :=
  print ("Exporting to Stockfish NNUE format: " +:+ output_path) ;;
  try_except
    (export_body self ;;
     print ("Successfully exported to " +:+ output_path))
    (λ e, print ("Export failed: " +:+ str_exn e)).

(** ** The bytes of a complete artifact *)

Definition header_bytes (cfg : TrainingConfig scalar) : list byte :=
  let description_bytes := encode_utf8 (description cfg) in
  list_byte_of_string "NNUE" ++ le_bytes 4 0x7AF32F16 ++ le_bytes 4 177 ++
  le_bytes 4 (Z.of_nat (length description_bytes)) ++ description_bytes.

(** ** The export as a plan of writes *)

(** What each loop body writes for one named parameter, if anything. *)
Definition ft_chunk (p : string * list scalar) : option (list byte) :=
  if contains "feature_transformer.0.weight" p.1 then Some (tobytes Int16 p.2)
  else if contains "feature_transformer.0.bias" p.1 then Some (tobytes Int32 p.2)
  else None.

Definition out_chunk (p : string * list scalar) : option (list byte) :=
  if contains "output_layers" p.1 then
    if contains "weight" p.1 then Some (tobytes Int8 p.2)
    else if contains "bias" p.1 then Some (tobytes Int32 p.2)
    else None
  else None.

Definition ft_chunks (self : NNUEExporter) : list (list byte) :=
  omap ft_chunk (named_parameters (exp_model self)).

Definition out_chunks (self : NNUEExporter) : list (list byte) :=
  omap out_chunk (named_parameters (exp_model self)).

Definition header_chunks (cfg : TrainingConfig scalar) : list (list byte) :=
  [list_byte_of_string "NNUE"; le_bytes 4 0x7AF32F16; le_bytes 4 177;
   le_bytes 4 (Z.of_nat (length (encode_utf8 (description cfg))));
   encode_utf8 (description cfg)].

(** The data of the successive [f.write] calls of one export. *)
Definition all_chunks (self : NNUEExporter) : list (list byte) :=
  header_chunks (exp_config self) ++ ft_chunks self ++ out_chunks self.

Definition write_all (chunks : list (list byte)) : IO unit :=
  for_each chunks write.

Definition append_chunks (content : option (list byte)) (chunks : list (list byte))
    : option (list byte) :=
  foldl (λ c data, Some (default [] c ++ data)) content chunks.

Definition description_fits (cfg : TrainingConfig scalar) : Prop :=
  Z.of_nat (length (encode_utf8 (description cfg))) < 2 ^ 32.

End Writers.

(** ** Reading the header back

    The reader of the layout of the artifact's header: magic tag, version
    identifier, architecture identifier, length-prefixed description.  The
    program itself never reads the artifact; this is the engine-side view
    of the first four fields, used to state the round trip. *)

Fixpoint le_int (bs : list byte) : Z :=
  match bs with
  | [] => 0
  | b :: bs' => Z.of_N (Byte.to_N b) + 256 * le_int bs'
  end.

Definition read_bytes (n : nat) (bs : list byte) : option (list byte * list byte) :=
  if decide (n ≤ length bs)%nat then Some (take n bs, drop n bs) else None.

Record Header := mkHeader {
  magic : list byte;
  version_id : Z;
  architecture_id : Z;
  description_text : string
}.

Definition read_header (blob : list byte) : option (Header * list byte) :=
  '(m, r) ← read_bytes 4 blob;
  '(v, r) ← read_bytes 4 r;
  '(a, r) ← read_bytes 4 r;
  '(n, r) ← read_bytes 4 r;
  '(d, r) ← read_bytes (Z.to_nat (le_int n)) r;
  Some (mkHeader m (le_int v) (le_int a) (string_of_list_byte d), r).

(** ** Propagation of a failure to the caller

    "A failure of the body of the export reaches the caller of
    [export_stockfish_nnue]". *)
Definition failure_propagates {scalar} (astype : dtype → scalar → Z)
    (self : NNUEExporter) (output_path : string) (w : world) : Prop :=
  ∀ e wb,
    export_body astype self
      (print ("Exporting to Stockfish NNUE format: " +:+ output_path) w).2 = (inl e, wb) →
    (export_stockfish_nnue astype self output_path w).1 = inl e.

(** ** Sample exporters and devices

    Parameters are integers here and the cast keeps the value, so that the
    bytes can be computed. *)
Definition keep_value : dtype → Z → Z := λ _ x, x.

Definition config_768_256 : TrainingConfig Z :=
  {| input_size := 768; hidden_size := 256; output_size := 1; eval_scale := 361 |}.

Definition exporter_768_256 (v2 : Z) : NNUEExporter :=
  mkExporter
    (NNUE_init config_768_256
       (const_linear 768 256 3) (const_linear 256 32 v2)
       (const_linear 32 32 (-200)) (const_linear 32 1 70000))
    config_768_256.

Definition config_2_1 : TrainingConfig Z :=
  {| input_size := 2; hidden_size := 1; output_size := 1; eval_scale := 361 |}.

Definition exporter_2_1 : NNUEExporter :=
  mkExporter
    (NNUE_init config_2_1
       (const_linear 2 1 3) (const_linear 1 32 5)
       (const_linear 32 32 (-2)) (const_linear 32 1 300))
    config_2_1.

(** A device that serves [n] calls and then reports a full disk. *)
Definition device (n : nat) : world :=
  {| file := None; stdout := []; io_budget := n;
     io_error := "[Errno 28] No space left on device"; io_calls := 0 |}.

(** ** The cast of float parameters to integers

    [param.detach().cpu().numpy().astype(np.int16)] on a float32 tensor is
    the C conversion of a float to a signed integer: the value is truncated
    toward zero, and the result is that integer whenever the target type can
    represent it.  For a value whose integer part is not representable the
    conversion yields some integer of the target type that depends on the
    platform ([overflow]); it does not fail.  The parameters are finite
    float32 values, read as real numbers. *)

(** The integer part of [x], toward zero. *)
Definition truncate (x : R) : Z :=
  if Rle_dec 0 x then Int_part x else - Int_part (- x).

Definition representable (d : dtype) (z : Z) : Prop :=
  match d with
  | Int8 => -128 <= z <= 127
  | Int16 => -32768 <= z <= 32767
  | Int32 => -2147483648 <= z <= 2147483647
  end.

#[global] Instance representable_dec d z : Decision (representable d z).
Proof. destruct d; simpl; apply _. Defined.

Definition float_astype (overflow : dtype → R → Z) (d : dtype) (x : R) : Z :=
  let t := truncate x in
  if decide (representable d t) then t else overflow d x.

(** A platform on which the conversion of an unrepresentable value yields
    0. *)
Definition zero_overflow : dtype → R → Z := λ _ _, 0.

(** A 2->2 network with real-valued parameters: two rows of weights with
    fractional parts, a bias beyond 16 bits, and an output layer whose
    parameters (300) are outside the 8-bit range. *)
Definition config_2_2 : TrainingConfig R :=
  {| input_size := 2; hidden_size := 2; output_size := 1; eval_scale := 361%R |}.

Definition float_ft0 : Linear R :=
  {| in_features := 2; out_features := 2;
     weight := [[7 / 2; - 7 / 2]; [1; 258]]%R;
     bias := [80001 / 2; -1]%R |}.

Definition float_exporter : NNUEExporter :=
  mkExporter
    (NNUE_init config_2_2
       float_ft0 (const_linear 2 32 0%R)
       (const_linear 32 32 (- 5 / 2)%R) (const_linear 32 1 300%R))
    config_2_2.

End Exporter.

(* ===================================================================== *)
(** * The colour-reversed mirror image of a board *)
(* ===================================================================== *)

Module Mirror.
Import HalfKP.

Definition flip_color (c : Color) : Color :=
  match c with BLACK => WHITE | WHITE => BLACK end.

Definition flip_piece (p : Piece) : Piece :=
  mkPiece (piece_type p) (flip_color (color p)).

(** Every piece moves to the rank-mirrored square and changes colour; the
    side to move changes too (python-chess: [board.mirror()]). *)
Definition mirror_board (board : Board) : Board :=
  mkBoard (kmap square_mirror (flip_piece <$> piece_map board))
          (set_map square_mirror (promoted board))
          (flip_color (turn board)).

(** White king e1, black king a8, black rook a7. *)
Definition rook_ending : Board :=
  mkBoard (<[4 := mkPiece KING WHITE]>
             (<[56 := mkPiece KING BLACK]> (<[48 := mkPiece ROOK BLACK]> ∅)))
          ∅ BLACK.

(** The squares of the board are the 64 squares 0..63. *)
Definition on_board (board : Board) : Prop :=
  ∀ square piece, piece_map board !! square = Some piece → 0 <= square < 64.

End Mirror.
(* ===================================================================== *)
(** * Training samples ([ChessDataset]) *)
(* ===================================================================== *)

Module Dataset.
Import HalfKP Arch Net.
Local Open Scope R_scope.

(** A stored position [(fen, evaluation, result)], the FEN parsed. *)
Abbreviation Position := (Board * R * string)%type.

Inductive IndexingError := IndexError | ZeroDivisionError.

(** [positions[idx]] on a Python list: negative indices count from the
    end, anything outside raises [IndexError]. *)
Definition list_index {A} (l : list A) (idx : Z) : option A :=
  if decide (0 <= idx)%Z then l !! Z.to_nat idx
  else if decide (- Z.of_nat (length l) <= idx)%Z
       then l !! Z.to_nat (Z.of_nat (length l) + idx)
       else None.

(** Lines 159-164: the game result seen from the side to move. *)
Definition outcome_of (result : string) (side : Color) : R :=
  if decide (result = "1-0") then
    match side with WHITE => 1 | BLACK => 0 end
  else if decide (result = "0-1") then
    match side with WHITE => 0 | BLACK => 1 end
  else 1 / 2.

(** One sample: the three tensors that [__getitem__] returns. *)
Record Sample := mkSample {
  sample_features : vec;
  sample_evaluation : vec;
  sample_outcome : vec
}.

(** [ChessDataset.__getitem__] *)
Definition __getitem__ (positions : list Position) (cfg : TrainingConfig R)
    (idx : Z) : IndexingError + Sample :=
  match list_index positions idx with
  | None => inl IndexError
  | Some (board, evaluation, result) =>
      let '(white_features, black_features) := position_to_features board in
      let features :=
        match turn board with
        | WHITE => white_features
        | BLACK => black_features
        end in
      if Req_dec_T (eval_scale cfg) 0 then inl ZeroDivisionError
      else
        inr (mkSample (tensor_of_features features)
               [to_training_target (eval_scale cfg) evaluation (turn board)]
               [outcome_of result (turn board)])
  end.

(** [ChessDataset.__len__] *)
Definition __len__ (positions : list Position) : Z := Z.of_nat (length positions).

(** White king e1, black king e8 and nothing else, white to move. *)
Definition bare_kings : Board :=
  mkBoard (<[4%Z := mkPiece KING WHITE]> (<[60%Z := mkPiece KING BLACK]> ∅)) ∅ WHITE.

End Dataset.
(* ===================================================================== *)
(** * Loading the training data ([DatabaseConnection]) *)
(* ===================================================================== *)

Module Loading.

Inductive level := INFO | WARNING | ERROR.

Section Loader.

(** [E] is the type of the evaluation column as the driver returns it, [F]
    the type of Python floats; [hashlib.md5(fen.encode()).hexdigest()] is a
    function of the FEN. *)
Context {E F : Type}.
Variable float_of : E → F.
Variable md5_hexdigest : string → string.

(** A fetched row [(fen, evaluation, result, move_number)]. *)
Abbreviation Row := (string * E * string * Z)%type.

(** A loaded position [(fen, float(evaluation), result)]. *)
Abbreviation Loaded := (string * F * string)%type.

Definition loaded_of (row : Row) : Loaded :=
  let '(fen, evaluation, result, move_number) := row in
  (fen, float_of evaluation, result).

Definition fen_of (p : Loaded) : string := p.1.1.

(** The loop over [cursor.fetchall()] (lines 249-261), started with
    [positions = []] and [seen_zobrist = set()]. *)
Fixpoint dedup_loop (max_positions : Z) (rows : list Row)
    (positions : list Loaded) (seen_zobrist : gset string) : list Loaded :=
  match rows with
  | [] => positions
  | (fen, evaluation, result, move_number) :: rows' =>
      let fen_hash := md5_hexdigest fen in
      if decide (fen_hash ∈ seen_zobrist) then
        dedup_loop max_positions rows' positions seen_zobrist
      else
        let seen_zobrist := {[fen_hash]} ∪ seen_zobrist in
        let positions := positions ++ [(fen, float_of evaluation, result)] in
        if decide (max_positions <= Z.of_nat (length positions)) then positions
        else dedup_loop max_positions rows' positions seen_zobrist
  end.

(** [load_training_data]: [answer] is what the database returns for the
    query, an error or the rows; the result is the returned list or the
    re-raised error, together with the log records. *)
Definition load_training_data (answer : string + list Row) (max_positions : Z)
    : (string + list Loaded) * list (level * string) :=
  let log := [(INFO, "Loading training data from database...")] in
  match answer with
  | inr rows =>
      let positions := dedup_loop max_positions rows [] ∅ in
      (inr positions,
       log ++ [(INFO, "Loaded " +:+ pretty (length positions) +:+ " unique positions")])
  | inl e =>
      (inl e, log ++ [(ERROR, "Database error: " +:+ e)])
  end.

End Loader.
End Loading.
(* ===================================================================== *)
(** * Checkpoints of the training loop ([NNUETrainer.train]) *)
(* ===================================================================== *)

Module Training.
Local Open Scope R_scope.

(** The fields ['epoch'] and ['loss'] of a saved checkpoint; the state
    dictionaries saved with them are those of the model after that epoch. *)
Record Checkpoint := mkCheckpoint {
  ck_epoch : nat;
  ck_loss : R
}.

(** [f"{self.config.model_name}_{suffix}.pth"]; the files all go to
    [output_dir] and are identified here by this name. *)
Definition checkpoint_name (model_name suffix : string) : string :=
  model_name +:+ "_" +:+ suffix +:+ ".pth".

(** [_save_model]: [torch.save] creates or replaces the file. *)
Definition _save_model (model_name : string) (epoch : nat) (loss : R)
    (suffix : string) (files : gmap string Checkpoint) : gmap string Checkpoint :=
  <[checkpoint_name model_name suffix := mkCheckpoint epoch loss]> files.

Inductive LoopResult :=
  | Finished (best_val_loss : option R)
  | ZeroDivisionError.

(** [val_loss < best_val_loss], where [None] stands for [float('inf')]. *)
Definition improves (val_loss : R) (best_val_loss : option R) : bool :=
  match best_val_loss with
  | None => true
  | Some best => if Rlt_dec val_loss best then true else false
  end.

(** The loop [for epoch in range(epochs)] of [train], lines 367-398, from
    the epoch [epoch] on.  [val_losses] are the values that [_validate]
    returns in the successive epochs. *)
Fixpoint epochs_loop (model_name : string) (save_frequency : Z)
    (epoch : nat) (val_losses : list R) (best_val_loss : option R)
    (files : gmap string Checkpoint) : LoopResult * gmap string Checkpoint :=
  match val_losses with
  | [] => (Finished best_val_loss, files)
  | val_loss :: rest =>
      let '(best_val_loss, files) :=
        if improves val_loss best_val_loss
        then (Some val_loss, _save_model model_name epoch val_loss "best" files)
        else (best_val_loss, files) in
      if decide (save_frequency = 0)%Z then (ZeroDivisionError, files)
      else
        let files :=
          if decide ((Z.of_nat epoch + 1) mod save_frequency = 0)%Z
          then _save_model model_name epoch val_loss
                 ("epoch_" +:+ pretty (Z.of_nat epoch + 1)%Z) files
          else files in
        epochs_loop model_name save_frequency (S epoch) rest best_val_loss files
  end.

(** What is known about the file ["..._best.pth"] after the epochs whose
    validation losses are [done]. *)
Definition best_so_far (model_name : string) (done : list R)
    (best : option R) (files : gmap string Checkpoint) : Prop :=
  match best with
  | None => done = []
  | Some v =>
      ∃ e, files !! checkpoint_name model_name "best" = Some (mkCheckpoint e v) ∧
           done !! e = Some v ∧
           (∀ i x, done !! i = Some x → v <= x) ∧
           (∀ i x, (i < e)%nat → done !! i = Some x → v < x)
  end.

(** What is known about the files ["..._epoch_<n>.pth"] after the epochs
    whose validation losses are [done]. *)
Definition periodic_so_far (model_name : string) (save_frequency : Z)
    (done : list R) (files : gmap string Checkpoint) : Prop :=
  ∀ (n : Z) ck,
    files !! checkpoint_name model_name ("epoch_" +:+ pretty n) = Some ck ↔
    ∃ j x, n = (Z.of_nat j + 1)%Z ∧ done !! j = Some x ∧
           (n mod save_frequency = 0)%Z ∧ ck = mkCheckpoint j x.

(** The checkpoints written by one run of the loop. *)
Definition training_checkpoints (model_name : string) (save_frequency : Z)
    (val_losses : list R) : LoopResult * gmap string Checkpoint :=
  epochs_loop model_name save_frequency 0 val_losses None ∅.

End Training.
(* ===================================================================== *)
(** * The trainer's own export ([NNUETrainer._export_nnue]) *)
(* ===================================================================== *)

Module TrainerExport.
Import Arch Exporter.
Local Open Scope io_scope.

Section TrainerWriter.

Context {scalar : Type}.

(** The IEEE-754 single-precision bit pattern of a parameter, as an
    unsigned 32-bit number ([astype(np.float32)] keeps float32 values). *)
Variable float32_bits : scalar → Z.

(** [logging]'s formatting of one record, from its level name and message
    (the format string also prints the time). *)
Variable log_record : string → string → string.

(** [os.path.join] *)
Variable path_join : string → string → string.

Definition logger_info (msg : string) : IO unit := print (log_record "INFO" msg).
Definition logger_error (msg : string) : IO unit := print (log_record "ERROR" msg).

(** [param...astype(np.float32).tobytes()] on a little-endian host. *)
Definition tobytes_float32 (a : list scalar) : list byte :=
  concat (map (λ x, le_bytes 4 (float32_bits x)) a).

(** The [with open(filepath, 'wb') as f:] block of [_export_nnue]. *)
Definition export_nnue_body (model : NNUE scalar) (cfg : TrainingConfig scalar) : IO unit :=
  open_wb ;;
  write (list_byte_of_string "NNUE") ;;
  version <- struct_pack_I 1 ;;
  write version ;;
  i <- struct_pack_I (input_size cfg) ;;
  write i ;;
  h <- struct_pack_I (hidden_size cfg) ;;
  write h ;;
  o <- struct_pack_I (output_size cfg) ;;
  write o ;;
  for_each (named_parameters model) (λ '(name, param),
    write (tobytes_float32 param)).

(** [_export_nnue(model, suffix)], with the [model_name] and [output_dir]
    of the configuration. *)
Definition _export_nnue (model : NNUE scalar) (cfg : TrainingConfig scalar)
    (model_name output_dir suffix : string) : IO unit :=
  let filename := model_name +:+ "_" +:+ suffix +:+ ".nnue" in
  let filepath := path_join output_dir filename in
  try_except
    (export_nnue_body model cfg ;;
     logger_info ("Exported NNUE model: " +:+ filepath))
    (λ e, logger_error ("Export failed: " +:+ str_exn e)).


(** A size that [struct.pack('<I', _)] accepts. *)
Definition fits_u32 (z : Z) : Prop := 0 <= z < 2 ^ 32.

End TrainerWriter.

(** Sample instances of the three parameters of the trainer's export. *)
Definition sample_bits : Z → Z := λ x, x.
Definition sample_record : string → string → string := λ l m, l +:+ " - " +:+ m.
Definition sample_join : string → string → string := λ d f, d +:+ "/" +:+ f.

End TrainerExport.
(* ===================================================================== *)
(** * Comparison with an engine ([ModelEvaluator.compare_with_engine]) *)
(* ===================================================================== *)

Module Compare.
Import HalfKP.
Local Open Scope Z_scope.

(** ** The part of [chess.engine] the comparison reads

    A score is [Cp(cp)], [Mate(moves)] or [MateGiven]; a [PovScore] is a
    score relative to a side. *)
Inductive Score := Cp (cp : Z) | Mate (moves : Z) | MateGiven.

(** [Score.__neg__] *)
Definition neg_score (s : Score) : Score :=
  match s with
  | Cp cp => Cp (- cp)
  | Mate moves => if decide (moves = 0) then MateGiven else Mate (- moves)
  | MateGiven => Mate 0
  end.

(** [Score.mate()] *)
Definition mate (s : Score) : option Z :=
  match s with
  | Cp _ => None
  | Mate moves => Some moves
  | MateGiven => Some 0
  end.

(** [Score.score()], without [mate_score] *)
Definition score (s : Score) : option Z :=
  match s with
  | Cp cp => Some cp
  | Mate _ | MateGiven => None
  end.






End Compare.


(* ===================================================================== *)
(** * Properties of the HalfKP encoding *)
(* ===================================================================== *)

Section HalfKP_facts.
Import HalfKP.

Lemma encode_piece_length c k square piece features :
  length (encode_piece c k square piece features) = length features.
Proof.
  unfold encode_piece.
  repeat case_decide; rewrite ?length_insert; reflexivity.
Qed.

Lemma feature_of_insert_skip c k m square piece i :
  m !! square = None →
  (piece_type piece = KING ∨ ¬ 0 <= piece_feature_idx c k square piece < 768) →
  feature_of c k (<[square:=piece]> m) i ↔ feature_of c k m i.
Proof.
  intros Hfresh Hskip. split.
  - intros (sq & p & Hsq & Hnk & Hidx).
    destruct (decide (sq = square)) as [->|Hne].
    + rewrite lookup_insert_eq in Hsq. injection Hsq as <-.
      destruct Hskip as [Hk | Hrange]; [contradiction|].
      exfalso. apply Hrange. apply Hidx.
    + rewrite lookup_insert_ne in Hsq by congruence.
      exists sq, p. auto.
  - intros (sq & p & Hsq & Hnk & Hidx).
    exists sq, p. split; [|auto].
    rewrite lookup_insert_ne; [assumption|]. intros ->. congruence.
Qed.

Lemma encode_loop_spec c k (m : gmap Z Piece) :
  let features := map_fold (encode_piece c k) (replicate 768 false) m in
  length features = 768%nat ∧
  ∀ i, features !! i = Some true ↔ feature_of c k m i.
Proof.
  cbv zeta.
  apply (map_fold_weak_ind
           (λ (r : FeatureVector) (m : gmap Z Piece),
              length r = 768%nat ∧ ∀ i, r !! i = Some true ↔ feature_of c k m i)).
  - split; [apply length_replicate|].
    intros i. split.
    + intros H. apply lookup_replicate in H. destruct H; discriminate.
    + intros (sq & p & Hsq & _). rewrite lookup_empty in Hsq. discriminate.
  - intros square piece m' r Hfresh [Hlen IH].
    split; [rewrite encode_piece_length; exact Hlen|].
    intros i. unfold encode_piece.
    destruct (decide (piece_type piece = KING)) as [Hk|Hnk].
    { rewrite feature_of_insert_skip by auto. apply IH. }
    cbv zeta.
    destruct (decide (0 <= piece_feature_idx c k square piece < 768)) as [Hin|Hout].
    2:{ rewrite feature_of_insert_skip by auto. apply IH. }
    destruct (decide (i = Z.to_nat (piece_feature_idx c k square piece))) as [->|Hi].
    + rewrite list_lookup_insert_eq by lia.
      split; [intros _|reflexivity].
      exists square, piece. rewrite lookup_insert_eq.
      split; [reflexivity|]. split; [assumption|]. split; [exact Hin|reflexivity].
    + rewrite list_lookup_insert_ne by congruence.
      rewrite IH. split.
      * intros (sq & p & Hsq & Hp & Hidx). exists sq, p.
        split; [|auto]. rewrite lookup_insert_ne; [assumption|].
        intros ->. congruence.
      * intros (sq & p & Hsq & Hp & Hidx).
        destruct (decide (sq = square)) as [->|Hne].
        -- rewrite lookup_insert_eq in Hsq. injection Hsq as <-.
           exfalso. apply Hi. apply Hidx.
        -- rewrite lookup_insert_ne in Hsq by congruence.
           exists sq, p. auto.
Qed.

(** [chess.square_mirror] flips the rank and keeps the file. *)
Lemma square_mirror_rank_flip (rank file : Z) :
  0 <= rank < 8 → 0 <= file < 8 →
  square_mirror (8 * rank + file) = 8 * (7 - rank) + file.
Proof.
  intros Hr Hf.
  assert (Hrs : rank ∈ [0; 1; 2; 3; 4; 5; 6; 7]).
  { rewrite !elem_of_cons. lia. }
  assert (Hfs : file ∈ [0; 1; 2; 3; 4; 5; 6; 7]).
  { rewrite !elem_of_cons. lia. }
  rewrite !elem_of_cons, elem_of_nil in Hrs, Hfs.
  repeat destruct Hrs as [->|Hrs]; try contradiction;
    repeat destruct Hfs as [->|Hfs]; try contradiction; reflexivity.
Qed.

(** C2.  When the perspective's king stands on [k], the returned vector has
    768 entries and entry [i] is set exactly when some non-king piece of the
    board has
    [kingSquare*10*64 + allyOrEnemy*6*64 + pieceType*64 + square = i]
    with that index inside [0, 768).  The ally/enemy bucket is 0 for a piece
    of the perspective's colour and 1 otherwise; the piece-type bucket is
    pawn 0, knight 1, bishop 2, rook 3, queen 4; the king square and the
    piece square are rank-mirrored ([^ 56]) for the black perspective.  A
    piece whose index falls outside the range sets nothing, and the encoder
    is total. *)
Theorem halfkp_index_formula (board : Board) (c : Color) (k : Z) :
  king board c = Some k →
  length (_get_halfkp_features board c) = 768%nat ∧
  ∀ i : nat,
    _get_halfkp_features board c !! i = Some true ↔
    ∃ square piece,
      piece_map board !! square = Some piece ∧ piece_type piece ≠ KING ∧
      let mirror := λ s, match c with BLACK => Z.lxor s 56 | WHITE => s end in
      let ally_or_enemy := if decide (color piece = c) then 0 else 1 in
      let type_bucket :=
        match piece_type piece with
        | PAWN => 0 | KNIGHT => 1 | BISHOP => 2
        | ROOK => 3 | QUEEN => 4 | KING => 5
        end in
      let idx := mirror k * 10 * 64 + ally_or_enemy * 6 * 64
                 + type_bucket * 64 + mirror square in
      0 <= idx < 768 ∧ i = Z.to_nat idx.
Proof.
  intros Hk. unfold _get_halfkp_features. rewrite Hk. cbv zeta.
  destruct (encode_loop_spec c (oriented c k) (piece_map board)) as [Hlen Hspec].
  split; [exact Hlen|].
  intros i. rewrite (Hspec i).
  unfold feature_of, oriented, square_mirror, piece_to_index.
  reflexivity.
Qed.

(** On [knight_board] (king b1 = 1) the own knight on c2 sets entry
    [1*640 + 0*384 + 1*64 + 10 = 714] and nothing else is set: the enemy
    pawn's index [640 + 384 + 55] is dropped.  On [rook_board] seen by black
    (king a8, mirrored to 0) the enemy rook on b2, mirrored to b7 = 49, sets
    entry [0*640 + 1*384 + 3*64 + 49 = 625]. *)
Lemma halfkp_index_formula_witness :
  (king knight_board WHITE = Some 1 ∧
   ∀ i : nat, _get_halfkp_features knight_board WHITE !! i = Some true ↔ i = 714%nat) ∧
  (king rook_board BLACK = Some 56 ∧
   ∀ i : nat, _get_halfkp_features rook_board BLACK !! i = Some true ↔ i = 625%nat).
Proof.
  split.
  - split; [reflexivity|].
    destruct (halfkp_index_formula knight_board WHITE 1 eq_refl) as [_ Hspec].
    intros i. rewrite (Hspec i). clear Hspec. split.
    + intros (square & piece & Hsq & Hnk & Hidx). cbv zeta in Hidx.
      unfold knight_board in Hsq. cbn [piece_map] in Hsq.
      apply lookup_insert_Some in Hsq as [[<- <-]|[_ Hsq]]; [contradiction Hnk; reflexivity|].
      apply lookup_insert_Some in Hsq as [[<- <-]|[_ Hsq]].
      { destruct Hidx as [_ ->]. reflexivity. }
      apply lookup_insert_Some in Hsq as [[<- <-]|[_ Hsq]].
      { destruct Hidx as [Hr _]. simpl in Hr. lia. }
      rewrite lookup_empty in Hsq. discriminate.
    + intros ->. exists 10, (mkPiece KNIGHT WHITE).
      split; [reflexivity|]. split; [discriminate|].
      simpl. split; [lia|reflexivity].
  - split; [reflexivity|].
    destruct (halfkp_index_formula rook_board BLACK 56 eq_refl) as [_ Hspec].
    intros i. rewrite (Hspec i). clear Hspec. split.
    + intros (square & piece & Hsq & Hnk & Hidx). cbv zeta in Hidx.
      unfold rook_board in Hsq. cbn [piece_map] in Hsq.
      apply lookup_insert_Some in Hsq as [[<- <-]|[_ Hsq]]; [contradiction Hnk; reflexivity|].
      apply lookup_insert_Some in Hsq as [[<- <-]|[_ Hsq]]; [contradiction Hnk; reflexivity|].
      apply lookup_insert_Some in Hsq as [[<- <-]|[_ Hsq]].
      { destruct Hidx as [_ ->]. reflexivity. }
      rewrite lookup_empty in Hsq. discriminate.
    + intros ->. exists 9, (mkPiece ROOK WHITE).
      split; [reflexivity|]. split; [discriminate|].
      change (0 <= 625 < 768 ∧ 625%nat = Z.to_nat 625).
      split; [lia|reflexivity].
Defined.

(** C10.  When [board.king(color)] finds no king, the encoder returns the
    vector of 768 zeros. *)
Theorem missing_king_zero_vector (board : Board) (c : Color) :
  king board c = None →
  _get_halfkp_features board c = replicate 768 false ∧
  length (_get_halfkp_features board c) = 768%nat ∧
  popcount (_get_halfkp_features board c) = 0%nat.
Proof.
  intros Hk. unfold _get_halfkp_features. rewrite Hk. cbv zeta.
  split; [reflexivity|]. split; vm_compute; reflexivity.
Qed.

Lemma missing_king_zero_vector_witness :
  king lone_white_king BLACK = None ∧
  _get_halfkp_features lone_white_king BLACK = replicate 768 false.
Proof.
  split; [reflexivity|].
  apply (missing_king_zero_vector lone_white_king BLACK). reflexivity.
Defined.

(** Every index computed for a king away from the first two squares is at
    least [2*10*64 = 1280]: on a board whose squares are 0..63 the range
    guard then drops every piece and the vector stays zero. *)
Lemma far_king_zero_vector (board : Board) (c : Color) (k : Z) :
  king board c = Some k →
  2 <= oriented c k →
  (∀ square piece, piece_map board !! square = Some piece → 0 <= square < 64) →
  _get_halfkp_features board c = replicate 768 false.
Proof.
  intros Hk Hfar. unfold _get_halfkp_features. rewrite Hk. cbv zeta.
  apply (map_fold_weak_ind
           (λ (r : FeatureVector) (m : gmap Z Piece),
              (∀ square piece, m !! square = Some piece → 0 <= square < 64) →
              r = replicate 768 false)).
  - reflexivity.
  - intros square piece m r Hfresh IH Hsq.
    assert (Hr : r = replicate 768 false).
    { apply IH. intros sq p Hp. apply (Hsq sq p).
      rewrite lookup_insert_ne; [exact Hp|]. intros ->. congruence. }
    assert (Hs : 0 <= oriented c square).
    { specialize (Hsq square piece (lookup_insert_eq _ _ _)).
      destruct c; simpl; [apply Z.lxor_nonneg|]; lia. }
    unfold encode_piece. destruct (decide (piece_type piece = KING)); [exact Hr|].
    cbv zeta. rewrite decide_False; [exact Hr|].
    unfold piece_feature_idx, feature_idx, piece_color.
    destruct (decide (color piece = c)), (piece_type piece); simpl; lia.
Qed.

(** C1 (evaluation at the starting position).  Both kings are found (e1 and
    e8), the board has 30 non-king pieces, and yet no entry is set for
    either perspective: with the king on e1 (square 4, also after mirroring
    e8) every index is at least [4*10*64 = 2560] and is dropped by the
    range guard. *)
Theorem starting_position_set_bits :
  king starting_board WHITE = Some 4 ∧
  king starting_board BLACK = Some 60 ∧
  non_king_pieces starting_board = 30%nat ∧
  popcount (_get_halfkp_features starting_board WHITE) = 0%nat ∧
  popcount (_get_halfkp_features starting_board BLACK) = 0%nat.
Proof. vm_compute. repeat split. Qed.

End HalfKP_facts.

(* ===================================================================== *)
(** * Properties of the evaluation network and the score mapping *)
(* ===================================================================== *)

Section Net_facts.
Import HalfKP Arch Net.
Local Open Scope R_scope.

Lemma linear_affine l x i o :
  has_shape l i o → Z.of_nat (length x) = i → linear l x = Some (affine l x).
Proof.
  intros (Hi & _ & _) Hx. unfold linear.
  rewrite decide_True by congruence. reflexivity.
Qed.

Lemma affine_length l x i o :
  has_shape l i o → Z.of_nat (length (affine l x)) = o.
Proof.
  intros (_ & Ho & Hw & _ & Hb). unfold affine.
  rewrite length_zip_with. lia.
Qed.

Lemma cosh_pos x : 0 < cosh x.
Proof.
  unfold cosh. pose proof (exp_pos x). pose proof (exp_pos (- x)). lra.
Qed.

Lemma tanh_bounds x : -1 < tanh x < 1.
Proof.
  pose proof (cosh_pos x) as Hc.
  assert (Hlo : - cosh x < sinh x).
  { unfold cosh, sinh. pose proof (exp_pos x). lra. }
  assert (Hhi : sinh x < cosh x).
  { unfold cosh, sinh. pose proof (exp_pos (- x)). lra. }
  unfold tanh. split.
  - apply Rmult_lt_reg_r with (cosh x); [exact Hc|].
    unfold Rdiv. rewrite Rmult_assoc, Rinv_l by lra. lra.
  - apply Rmult_lt_reg_r with (cosh x); [exact Hc|].
    unfold Rdiv. rewrite Rmult_assoc, Rinv_l by lra. lra.
Qed.

(** ** Rounding to float32 *)

Lemma pow2_pos e : 0 < powerRZ 2 e.
Proof. apply powerRZ_lt. lra. Qed.

Lemma pow2_le m n : (m <= n)%Z → powerRZ 2 m <= powerRZ 2 n.
Proof.
  intros H. rewrite !powerRZ_Rpower by lra.
  apply Rle_Rpower; [lra|]. apply IZR_le. exact H.
Qed.

Lemma ln2_pos : 0 < ln 2.
Proof. pose proof ln_lt_2. lra. Qed.

Lemma binade_spec a :
  0 < a → powerRZ 2 (binade a) <= a < powerRZ 2 (binade a + 1).
Proof.
  intros Ha. pose proof ln2_pos as H2.
  assert (Hp : a = Rpower 2 (ln a / ln 2)).
  { unfold Rpower. replace (ln a / ln 2 * ln 2) with (ln a) by (field; lra).
    symmetry. apply exp_ln. exact Ha. }
  destruct (base_Int_part (ln a / ln 2)) as [Hlo Hhi]. fold (binade a) in Hlo, Hhi.
  rewrite !powerRZ_Rpower by lra. split.
  - rewrite Hp at 2. apply Rle_Rpower; [lra|exact Hlo].
  - rewrite Hp at 1. apply Rpower_lt; [lra|]. rewrite plus_IZR. lra.
Qed.

Lemma round_half_even_near r :
  (Int_part r <= round_half_even r <= Int_part r + 1)%Z ∧
  Rabs (IZR (round_half_even r) - r) <= 1 / 2.
Proof.
  destruct (base_Int_part r) as [Hlo Hhi]. unfold round_half_even. cbv zeta.
  destruct (Rlt_dec (r - IZR (Int_part r)) (1 / 2)) as [Hd|Hd].
  { split; [lia|]. apply Rabs_le. lra. }
  destruct (Rlt_dec (1 / 2) (r - IZR (Int_part r))) as [Hd'|Hd'].
  { split; [lia|]. rewrite plus_IZR. apply Rabs_le. lra. }
  destruct (Z.even (Int_part r)).
  - split; [lia|]. apply Rabs_le. lra.
  - split; [lia|]. rewrite plus_IZR. apply Rabs_le. lra.
Qed.

(** A real of magnitude below one rounds into [[-1, 1]], and the rounding
    error is at most half a unit in the last place, [2^-25]. *)
Lemma float32_of_real_unit x :
  -1 < x < 1 →
  -1 <= float32_of_real x <= 1 ∧ Rabs (float32_of_real x - x) <= / 33554432.
Proof.
  intros Hx. unfold float32_of_real. cbv zeta.
  destruct (Rle_dec (Rabs x) 0) as [Hz|Hz].
  { assert (x = 0).
    { destruct (Req_dec x 0) as [|Hn]; [assumption|].
      pose proof (Rabs_pos_lt x Hn). lra. }
    subst x. rewrite Rminus_0_r, Rabs_R0. lra. }
  assert (Ha : 0 < Rabs x < 1).
  { split; [lra|]. apply Rabs_def1; lra. }
  assert (Hax : (0 <= x → Rabs x = x) ∧ (x < 0 → Rabs x = - x)).
  { split; intros; [apply Rabs_right|apply Rabs_left]; lra. }
  set (a := Rabs x) in *. clearbody a.
  destruct (binade_spec a (proj1 Ha)) as [Hb1 Hb2].
  assert (Hl : (binade a <= -1)%Z).
  { destruct (Z_lt_le_dec (binade a) 0) as [|Hge]; [lia|].
    pose proof (pow2_le 0 (binade a) Hge) as Hp. simpl in Hp. lra. }
  set (e := Z.max (binade a) (-126)).
  assert (He : (binade a <= e <= -1)%Z) by (unfold e; lia).
  clearbody e.
  assert (Hulp : 0 < powerRZ 2 (e - 23)) by apply pow2_pos.
  assert (Hulp24 : 16777216 * powerRZ 2 (e - 23) = powerRZ 2 (e + 1)).
  { replace (e + 1)%Z with (24 + (e - 23))%Z by lia.
    rewrite powerRZ_add by lra. simpl. lra. }
  assert (Hu1 : powerRZ 2 (e + 1) <= 1).
  { change 1 with (powerRZ 2 0). apply pow2_le. lia. }
  pose proof (pow2_le (binade a + 1) (e + 1) ltac:(lia)) as Hmono.
  set (ulp := powerRZ 2 (e - 23)) in *. clearbody ulp.
  assert (Hra : a = a / ulp * ulp) by (field; lra).
  assert (Hr : 0 < a / ulp < 16777216).
  { split.
    - apply Rdiv_lt_0_compat; lra.
    - apply Rmult_lt_reg_r with ulp; [exact Hulp|]. lra. }
  set (r := a / ulp) in *. clearbody r.
  destruct (round_half_even_near r) as [Hn Herr].
  destruct (base_Int_part r) as [Hi1 Hi2].
  assert (H0 : (0 <= Int_part r <= 16777215)%Z).
  { assert (-1 < Int_part r < 16777216)%Z; [|lia].
    split; apply lt_IZR; lra. }
  set (n := round_half_even r) in *. clearbody n.
  assert (Hn0 : 0 <= IZR n <= 16777216).
  { split; apply IZR_le; lia. }
  assert (Hm : 0 <= IZR n * ulp <= 1).
  { split; [apply Rmult_le_pos; lra|].
    apply Rle_trans with (16777216 * ulp); [|lra].
    apply Rmult_le_compat_r; lra. }
  assert (Herr' : Rabs (IZR n * ulp - a) <= / 33554432).
  { replace (IZR n * ulp - a) with ((IZR n - r) * ulp) by lra.
    rewrite Rabs_mult, (Rabs_right ulp) by lra.
    apply Rle_trans with (1 / 2 * ulp).
    - apply Rmult_le_compat_r; lra.
    - lra. }
  destruct Hax as [Hpos Hneg].
  destruct (Rle_dec 0 x) as [Hp|Hp].
  - split; [lra|]. rewrite <- (Hpos Hp). exact Herr'.
  - split; [lra|].
    replace (- (IZR n * ulp) - x) with (- (IZR n * ulp - a)).
    2:{ rewrite Hneg by lra. lra. }
    rewrite Rabs_Ropp. exact Herr'.
Qed.







Lemma float32_tanh_range z :
  -1 <= float32_tanh z <= 1 ∧ Rabs (float32_tanh z - tanh z) <= / 33554432.
Proof. apply float32_of_real_unit, tanh_bounds. Qed.


Lemma singleton_of_length {A} (l : list A) : Z.of_nat (length l) = 1%Z → ∃ a, l = [a].
Proof.
  destruct l as [|a [|b l]]; simpl; intros H; try lia. eauto.
Qed.

(** The eight stages of [NNUE.forward] on a model built by [__init__]. *)
Lemma forward_stages cfg ft0 ft2 out1 out3 x :
  init_shapes cfg ft0 ft2 out1 out3 →
  Z.of_nat (length x) = input_size cfg →
  forward (NNUE_init cfg ft0 ft2 out1 out3) x =
  Some (map float32_tanh (affine out3 (map relu (affine out1 (map relu
         (affine ft2 (map relu (affine ft0 x)))))))).
Proof.
  intros (H0 & H2 & H1 & H3) Hx.
  unfold forward, NNUE_init. simpl.
  rewrite (linear_affine _ _ _ _ H0 Hx). simpl.
  rewrite (linear_affine ft2 _ (hidden_size cfg) 32 H2); simpl.
  2:{ rewrite length_map. apply (affine_length _ _ _ _ H0). }
  rewrite (linear_affine out1 _ 32%Z 32%Z H1); simpl.
  2:{ rewrite length_map. apply (affine_length _ _ _ _ H2). }
  rewrite (linear_affine out3 _ 32%Z 1%Z H3); simpl.
  2:{ rewrite length_map. apply (affine_length _ _ _ _ H1). }
  reflexivity.
Qed.

(** The output of [forward] is the float32 tangent of a single real. *)
Lemma forward_scalar cfg ft0 ft2 out1 out3 (x : vec) :
  init_shapes cfg ft0 ft2 out1 out3 →
  Z.of_nat (length x) = input_size cfg →
  ∃ z : R,
    affine out3 (map relu (affine out1 (map relu
      (affine ft2 (map relu (affine ft0 x)))))) = [z] ∧
    forward (NNUE_init cfg ft0 ft2 out1 out3) x = Some [float32_tanh z].
Proof.
  intros Hs Hx.
  rewrite (forward_stages _ _ _ _ _ _ Hs Hx).
  destruct Hs as (_ & _ & _ & H3).
  destruct (singleton_of_length _ (affine_length out3
    (map relu (affine out1 (map relu (affine ft2 (map relu (affine ft0 x))))))
    _ _ H3)) as [z Hz].
  exists z. rewrite Hz. split; reflexivity.
Qed.

Lemma const_linear_shape {scalar} (i o : nat) (v : scalar) :
  has_shape (const_linear i o v) (Z.of_nat i) (Z.of_nat o).
Proof.
  unfold has_shape, Linear_shaped, const_linear. simpl.
  rewrite !length_replicate. repeat split.
  apply Forall_replicate. rewrite length_replicate. reflexivity.
Qed.

Lemma zero_model_shapes :
  init_shapes zero_config
    (const_linear 768 256 0) (const_linear 256 32 0)
    (const_linear 32 32 0) (const_linear 32 1 0).
Proof.
  repeat split; try apply Forall_replicate;
    simpl; rewrite ?length_replicate; reflexivity.
Qed.














(** C7.  On a model built by [NNUE.__init__] for 768 inputs,
    [evaluate_position] feeds the features of the side to move to the
    network, multiplies the bounded output [y] by [eval_scale] and negates
    the product exactly when black is to move; with a positive scale the
    sign of the result is the sign of [y] for white to move and the
    opposite sign for black to move. *)
Theorem evaluate_position_score cfg ft0 ft2 out1 out3 (board : Board) :
  init_shapes cfg ft0 ft2 out1 out3 →
  input_size cfg = 768%Z →
  ∃ y e : R,
    forward (NNUE_init cfg ft0 ft2 out1 out3)
      (tensor_of_features (_get_halfkp_features board (turn board))) = Some [y] ∧
    evaluate_position (NNUE_init cfg ft0 ft2 out1 out3) board = Some e ∧
    e = match turn board with
        | WHITE => y * eval_scale cfg
        | BLACK => - (y * eval_scale cfg)
        end ∧
    (0 < eval_scale cfg →
     match turn board with
     | WHITE => (0 < e ↔ 0 < y) ∧ (e < 0 ↔ y < 0)
     | BLACK => (0 < e ↔ y < 0) ∧ (e < 0 ↔ 0 < y)
     end).
Proof.
  intros Hs Hin.
  assert (Hlen : ∀ c, Z.of_nat (length (tensor_of_features
                        (_get_halfkp_features board c))) = input_size cfg).
  { intros c. unfold tensor_of_features. rewrite length_map, Hin.
    unfold _get_halfkp_features.
    destruct (king board c) as [k|].
    - cbv zeta.
      destruct (encode_loop_spec c (oriented c k) (piece_map board)) as [-> _].
      reflexivity.
    - cbv zeta. rewrite length_replicate. reflexivity. }
  destruct (forward_scalar cfg ft0 ft2 out1 out3 _ Hs (Hlen (turn board)))
    as (z & _ & Hf).
  exists (float32_tanh z),
    (to_external_score (eval_scale cfg) (float32_tanh z) (turn board)).
  split; [exact Hf|].
  split.
  { unfold evaluate_position, position_to_features.
    destruct (turn board); rewrite Hf; reflexivity. }
  unfold to_external_score. split; [destruct (turn board); reflexivity|].
  intros Hpos. destruct (turn board); split; split; intros H; nra.
Qed.

(** C8.  Over the reals, with a non-zero [eval_scale], normalising the
    external score of a bounded scalar for the same side to move gives the
    scalar back. *)
Theorem score_round_trip (scale x : R) (side : Color) :
  scale ≠ 0 → -1 < x < 1 →
  to_training_target scale (to_external_score scale x side) side = x.
Proof.
  intros Hs Hx. unfold to_training_target, to_external_score, clip.
  assert (Hq : match side with
               | WHITE => match side with BLACK => - (x * scale) | WHITE => x * scale end
               | BLACK => - match side with BLACK => - (x * scale) | WHITE => x * scale end
               end / scale = x).
  { destruct side; field; exact Hs. }
  cbv zeta. rewrite Hq.
  rewrite Rmax_left by lra. rewrite Rmin_left by lra. reflexivity.
Qed.


Lemma evaluate_position_score_witness :
  ∃ y : R,
    evaluate_position zero_model starting_board = Some (y * 361) ∧
    forward zero_model
      (tensor_of_features (_get_halfkp_features starting_board WHITE)) = Some [y].
Proof.
  destruct (evaluate_position_score zero_config
              (const_linear 768 256 0) (const_linear 256 32 0)
              (const_linear 32 32 0) (const_linear 32 1 0)
              starting_board zero_model_shapes eq_refl)
    as (y & e & Hf & He & -> & _).
  exists y. split; [exact He|exact Hf].
Defined.

Lemma score_round_trip_witness :
  to_training_target 361 (to_external_score 361 (1 / 2) BLACK) BLACK = 1 / 2.
Proof. apply score_round_trip; lra. Defined.

End Net_facts.

(* ===================================================================== *)
(** * Properties of the export *)
(* ===================================================================== *)

Section Exporter_facts.
Import Arch Exporter.
Local Open Scope io_scope.

Context {scalar : Type} (astype : dtype → scalar → Z).

(** *** The monad *)

Lemma bind_ext {A B} (m : IO A) (k k' : A → IO B) w :
  (∀ a w', k a w' = k' a w') → bind m k w = bind m k' w.
Proof.
  intros Hk. unfold bind. destruct (m w) as [[e|a] w']; [reflexivity|apply Hk].
Qed.

Lemma bind_run {A B} (m : IO A) (k : A → IO B) w a w' :
  m w = (inr a, w') → bind m k w = k a w'.
Proof. intros H. unfold bind. rewrite H. reflexivity. Qed.

Lemma bind_raise {A B} (m : IO A) (k : A → IO B) w e w' :
  m w = (inl e, w') → bind m k w = (inl e, w').
Proof. intros H. unfold bind. rewrite H. reflexivity. Qed.

Lemma bind_assoc {A B C} (m : IO A) (k : A → IO B) (k' : B → IO C) w :
  bind (bind m k) k' w = bind m (λ a, bind (k a) k') w.
Proof. unfold bind. destruct (m w) as [[e|a] w']; reflexivity. Qed.

Lemma bind_ret_l {A B} (a : A) (k : A → IO B) w : bind (ret a) k w = k a w.
Proof. reflexivity. Qed.

Lemma struct_pack_I_ok z : 0 <= z < 2 ^ 32 → struct_pack_I z = ret (le_bytes 4 z).
Proof. intros H. unfold struct_pack_I. rewrite decide_True by exact H. reflexivity. Qed.

(** *** Loops that write *)

Lemma for_each_chunks {A} (body : A → IO unit) (chunk : A → option (list byte)) l w :
  (∀ a, body a = match chunk a with Some c => write c | None => ret tt end) →
  for_each l body w = write_all (omap chunk l) w.
Proof.
  intros Hbody. revert w. induction l as [|a l IH]; intros w; [reflexivity|].
  simpl. rewrite Hbody. destruct (chunk a) as [c|].
  - apply bind_ext. intros _ w'. apply IH.
  - apply IH.
Qed.

Lemma write_feature_transformer_chunks self w :
  _write_feature_transformer astype self w = write_all (ft_chunks astype self) w.
Proof.
  apply for_each_chunks. intros [name param]. unfold ft_chunk. simpl.
  destruct (contains _ name); [reflexivity|].
  destruct (contains _ name); reflexivity.
Qed.

Lemma write_output_layers_chunks self w :
  _write_output_layers astype self w = write_all (out_chunks astype self) w.
Proof.
  apply for_each_chunks. intros [name param]. unfold out_chunk. simpl.
  destruct (contains "output_layers" name); [|reflexivity].
  destruct (contains "weight" name); [reflexivity|].
  destruct (contains "bias" name); reflexivity.
Qed.

Lemma write_all_app a b w :
  write_all (a ++ b) w = bind (write_all a) (λ _, write_all b) w.
Proof.
  revert w. induction a as [|c a IH]; intros w; [reflexivity|].
  unfold write_all in *. simpl. rewrite bind_assoc.
  apply bind_ext. intros _ w'. apply IH.
Qed.

Lemma append_chunks_Some content chunks :
  append_chunks (Some content) chunks = Some (content ++ concat chunks).
Proof.
  revert content. induction chunks as [|c cs IH]; intros content; simpl.
  - rewrite app_nil_r. reflexivity.
  - unfold append_chunks in *. simpl. rewrite IH, app_assoc. reflexivity.
Qed.

(** Running a sequence of writes: all of them are served when the budget
    suffices; otherwise the first [io_budget] of them are and the next one
    raises. *)
Lemma write_all_run chunks w :
  write_all chunks w =
  if decide (length chunks ≤ io_budget w)%nat then
    (inr tt, mkWorld (append_chunks (file w) chunks) (stdout w)
               (io_budget w - length chunks) (io_error w)
               (io_calls w + length chunks))
  else
    (inl (OSError (io_error w)),
     mkWorld (append_chunks (file w) (take (io_budget w) chunks)) (stdout w)
       0 (io_error w) (io_calls w + io_budget w + 1)).
Proof.
  revert w. induction chunks as [|c cs IH]; intros [f out b err n].
  - unfold write_all, ret. simpl.
    rewrite Nat.sub_0_r, Nat.add_0_r. reflexivity.
  - unfold write_all in *. simpl for_each. unfold bind, write, device_call.
    cbn [io_budget file stdout io_error io_calls length].
    destruct b as [|b].
    + destruct (decide (S (length cs) ≤ 0)%nat); [lia|].
      simpl. rewrite Nat.add_0_r, Nat.add_1_r. reflexivity.
    + rewrite IH. cbn [io_budget file stdout io_error io_calls].
      destruct (decide (length cs ≤ b)%nat);
        destruct (decide (S (length cs) ≤ S b)%nat); try lia;
        simpl; (f_equal; f_equal; lia).
Qed.

(** *** The body of the export as a plan of device calls *)

Lemma export_body_plan self w :
  description_fits (exp_config self) →
  export_body astype self w = bind open_wb (λ _, write_all (all_chunks astype self)) w.
Proof.
  intros Hfit. unfold export_body, all_chunks, header_chunks.
  rewrite (struct_pack_I_ok 0x7AF32F16) by (split; [discriminate|reflexivity]).
  rewrite (struct_pack_I_ok 177) by (split; [discriminate|reflexivity]).
  rewrite struct_pack_I_ok by (split; [lia|exact Hfit]).
  unfold write_all. simpl for_each.
  apply bind_ext; intros _ w1.
  apply bind_ext; intros _ w2.
  rewrite bind_ret_l. apply bind_ext; intros _ w3.
  rewrite bind_ret_l. apply bind_ext; intros _ w4.
  cbv zeta. rewrite bind_ret_l. apply bind_ext; intros _ w5.
  apply bind_ext; intros _ w6.
  fold (write_all (ft_chunks astype self ++ out_chunks astype self)).
  rewrite write_all_app.
  unfold bind. rewrite write_feature_transformer_chunks.
  destruct (write_all (ft_chunks astype self) w6) as [[e|[]] w7]; [reflexivity|].
  apply write_output_layers_chunks.
Qed.

Lemma export_body_run self w :
  description_fits (exp_config self) →
  export_body astype self w =
  if decide (1 + length (all_chunks astype self) ≤ io_budget w)%nat then
    (inr tt, mkWorld (Some (concat (all_chunks astype self))) (stdout w)
               (io_budget w - (1 + length (all_chunks astype self))) (io_error w)
               (io_calls w + (1 + length (all_chunks astype self))))
  else
    (inl (OSError (io_error w)),
     mkWorld (match io_budget w with
              | O => file w
              | S b => Some (concat (take b (all_chunks astype self)))
              end)
       (stdout w) 0 (io_error w) (io_calls w + io_budget w + 1)).
Proof.
  intros Hfit. rewrite export_body_plan by exact Hfit.
  destruct w as [f out b err n].
  unfold bind, open_wb, device_call.
  cbn [io_budget file stdout io_error io_calls].
  destruct b as [|b].
  - destruct (decide (1 + length (all_chunks astype self) ≤ 0)%nat); [lia|].
    rewrite Nat.add_0_r, Nat.add_1_r. reflexivity.
  - rewrite write_all_run. cbn [io_budget file stdout io_error io_calls].
    rewrite !append_chunks_Some. simpl app.
    destruct (decide (length (all_chunks astype self) ≤ b)%nat);
      destruct (decide (1 + length (all_chunks astype self) ≤ S b)%nat); try lia;
      (f_equal; f_equal; lia).
Qed.

(** The whole call, on any world: it always returns normally. *)
Lemma export_stockfish_nnue_run self path w :
  description_fits (exp_config self) →
  export_stockfish_nnue astype self path w =
  if decide (1 + length (all_chunks astype self) ≤ io_budget w)%nat then
    (inr tt,
     mkWorld (Some (concat (all_chunks astype self)))
       (stdout w ++ ["Exporting to Stockfish NNUE format: " +:+ path;
                     "Successfully exported to " +:+ path])
       (io_budget w - (1 + length (all_chunks astype self))) (io_error w)
       (io_calls w + (1 + length (all_chunks astype self))))
  else
    (inr tt,
     mkWorld (match io_budget w with
              | O => file w
              | S b => Some (concat (take b (all_chunks astype self)))
              end)
       (stdout w ++ ["Exporting to Stockfish NNUE format: " +:+ path;
                     "Export failed: " +:+ io_error w])
       0 (io_error w) (io_calls w + io_budget w + 1)).
Proof.
  intros Hfit. unfold export_stockfish_nnue.
  unfold bind at 1. unfold print at 1. unfold try_except, bind.
  rewrite export_body_run by exact Hfit.
  cbn [io_budget file stdout io_error io_calls].
  destruct (decide (1 + length (all_chunks astype self) ≤ io_budget w)%nat);
    unfold print; cbn [io_budget file stdout io_error io_calls str_exn];
    rewrite <- app_assoc; reflexivity.
Qed.

Lemma export_stockfish_nnue_returns self path w :
  (export_stockfish_nnue astype self path w).1 = inr tt.
Proof.
  unfold export_stockfish_nnue, bind, try_except, print.
  destruct (export_body astype self _) as [[e|[]] w']; reflexivity.
Qed.

(** *** Bytes and lengths *)

Lemma le_bytes_length n z : length (le_bytes n z) = n.
Proof. revert z. induction n as [|n IH]; intros z; simpl; [|rewrite IH]; reflexivity. Qed.

Lemma byte_of_Z_to_N z : Z.of_N (Byte.to_N (byte_of_Z z)) = z mod 256.
Proof.
  unfold byte_of_Z.
  pose proof (Z.mod_pos_bound z 256 eq_refl) as Hm.
  destruct (Byte.of_N (Z.to_N (z mod 256))) as [b|] eqn:E; simpl.
  - apply Byte.to_of_N in E. rewrite E. lia.
  - apply Byte.of_N_None_iff in E. lia.
Qed.

Lemma le_int_le_bytes n z :
  0 <= z < 256 ^ Z.of_nat n → le_int (le_bytes n z) = z.
Proof.
  revert z. induction n as [|n IH]; intros z Hz.
  - simpl in *. lia.
  - cbn [le_bytes le_int]. rewrite byte_of_Z_to_N.
    rewrite Nat2Z.inj_succ, Z.pow_succ_r in Hz by lia.
    rewrite IH.
    + pose proof (Z.div_mod z 256). lia.
    + split; [apply Z.div_pos; lia|].
      apply Z.div_lt_upper_bound; lia.
Qed.

Lemma le_int_le_bytes_mod n z :
  le_int (le_bytes n z) = z mod 256 ^ Z.of_nat n.
Proof.
  revert z. induction n as [|n IH]; intros z.
  - simpl. rewrite Z.mod_1_r. reflexivity.
  - cbn [le_bytes le_int]. rewrite byte_of_Z_to_N, IH.
    rewrite Nat2Z.inj_succ, Z.pow_succ_r by lia.
    rewrite Z.rem_mul_r by lia. reflexivity.
Qed.

Lemma read_bytes_app n (a r : list byte) :
  length a = n → read_bytes n (a ++ r) = Some (a, r).
Proof.
  intros <-. unfold read_bytes.
  rewrite decide_True by (rewrite length_app; lia).
  rewrite take_app_length, drop_app_length. reflexivity.
Qed.

Lemma read_header_written (cfg : TrainingConfig scalar) (rest : list byte) :
  description_fits cfg →
  read_header (concat (header_chunks cfg) ++ rest) =
  Some (mkHeader (list_byte_of_string "NNUE") 0x7AF32F16 177 (description cfg), rest).
Proof.
  intros Hfit. unfold header_chunks, read_header.
  cbn [concat]. rewrite app_nil_r, <- !app_assoc.
  rewrite (read_bytes_app 4) by reflexivity. cbn [mbind option_bind].
  rewrite (read_bytes_app 4) by reflexivity. cbn [mbind option_bind].
  rewrite (read_bytes_app 4) by reflexivity. cbn [mbind option_bind].
  rewrite (read_bytes_app 4) by reflexivity. cbn [mbind option_bind].
  unfold description_fits in Hfit. change (2 ^ 32) with 4294967296 in Hfit.
  rewrite !(le_int_le_bytes 4)
    by (change (256 ^ Z.of_nat 4) with 4294967296; lia).
  rewrite Nat2Z.id.
  rewrite read_bytes_app by reflexivity. cbn [mbind option_bind].
  unfold encode_utf8. rewrite string_of_list_byte_of_string.
  reflexivity.
Qed.

Lemma tobytes_length d (a : list scalar) :
  length (tobytes astype d a) = (itemsize d * length a)%nat.
Proof.
  unfold tobytes. induction a as [|x a IH]; simpl; [lia|].
  rewrite length_app, le_bytes_length, IH. lia.
Qed.

Lemma concat_rows_length {A} (rows : list (list A)) (n : Z) :
  Forall (λ row, Z.of_nat (length row) = n) rows →
  Z.of_nat (length (concat rows)) = Z.of_nat (length rows) * n.
Proof.
  induction 1 as [|row rows Hrow _ IH]; simpl; [lia|].
  rewrite length_app. lia.
Qed.

Lemma weight_bytes_length d (l : Linear scalar) i o :
  has_shape l i o →
  Z.of_nat (length (tobytes astype d (concat (weight l)))) = i * o * Z.of_nat (itemsize d) ∧
  Z.of_nat (length (tobytes astype d (bias l))) = o * Z.of_nat (itemsize d).
Proof.
  intros (Hi & Ho & Hw & Hrows & Hb).
  rewrite !tobytes_length, !Nat2Z.inj_mul.
  rewrite (concat_rows_length _ _ Hrows). split; nia.
Qed.

(** The writes of an export of a model built by [NNUE.__init__]. *)
Lemma all_chunks_init cfg mcfg ft0 ft2 out1 out3 :
  all_chunks astype (mkExporter (NNUE_init mcfg ft0 ft2 out1 out3) cfg) =
  header_chunks cfg ++
  [tobytes astype Int16 (concat (weight ft0)); tobytes astype Int32 (bias ft0)] ++
  [tobytes astype Int8 (concat (weight out1)); tobytes astype Int32 (bias out1);
   tobytes astype Int8 (concat (weight out3)); tobytes astype Int32 (bias out3)].
Proof. reflexivity. Qed.

Lemma header_chunks_concat (cfg : TrainingConfig scalar) :
  concat (header_chunks cfg) = header_bytes cfg.
Proof.
  unfold header_chunks, header_bytes. cbn [concat]. rewrite app_nil_r. reflexivity.
Qed.

Lemma export_body_same_chunks self self' w :
  exp_config self = exp_config self' →
  ft_chunks astype self = ft_chunks astype self' →
  out_chunks astype self = out_chunks astype self' →
  export_body astype self w = export_body astype self' w.
Proof.
  intros Hcfg Hft Hout. unfold export_body. rewrite Hcfg.
  do 9 (apply bind_ext; intros ? ?).
  unfold bind. rewrite !write_feature_transformer_chunks, Hft.
  destruct (write_all (ft_chunks astype self') _) as [[e|[]] w'']; [reflexivity|].
  rewrite !write_output_layers_chunks, Hout. reflexivity.
Qed.

(** C3 (as the code behaves).  When the device fails during the export
    (the budget does not cover the [open] and all the writes), the body of
    the [try] raises [OSError], and [export_stockfish_nnue] catches it: the
    call returns normally, "Export failed: ..." is printed instead of the
    success message, the bytes written before the failure stay in the file,
    and no call is attempted after the failed one. *)
Theorem export_failure_is_caught self path w :
  description_fits (exp_config self) →
  (io_budget w < 1 + length (all_chunks astype self))%nat →
  let w1 := (print ("Exporting to Stockfish NNUE format: " +:+ path) w).2 in
  let result := export_stockfish_nnue astype self path w in
  (export_body astype self w1).1 = inl (OSError (io_error w)) ∧
  result.1 = inr tt ∧
  stdout result.2 =
    stdout w ++ ["Exporting to Stockfish NNUE format: " +:+ path;
                 "Export failed: " +:+ io_error w] ∧
  file result.2 =
    match io_budget w with
    | O => file w
    | S b => Some (concat (take b (all_chunks astype self)))
    end ∧
  io_calls result.2 = (io_calls w + io_budget w + 1)%nat.
Proof.
  intros Hfit Hlow. cbv zeta.
  rewrite export_body_run by exact Hfit.
  rewrite export_stockfish_nnue_run by exact Hfit.
  unfold print. cbn [snd io_budget file stdout io_error io_calls].
  destruct (decide (1 + length (all_chunks astype self) ≤ io_budget w)%nat); [lia|].
  cbn [fst snd io_budget file stdout io_error io_calls]. auto.
Qed.

(** C4.  A served export leaves in the file: the tag [NNUE], the version
    identifier [0x7AF32F16] and the architecture identifier [177] as 4-byte
    little-endian fields, the 4-byte little-endian length of the
    description, the description ["NNUE {input_size}->{hidden_size}->1"]
    itself, then the parameters; reading the header back returns the tag,
    the two identifiers and the description that were written. *)
Theorem export_header_round_trip self path w :
  description_fits (exp_config self) →
  (1 + length (all_chunks astype self) ≤ io_budget w)%nat →
  let cfg := exp_config self in
  let text := "NNUE " +:+ pretty (input_size cfg) +:+ "->"
              +:+ pretty (hidden_size cfg) +:+ "->1" in
  ∃ parameters : list byte,
    file (export_stockfish_nnue astype self path w).2 =
      Some (list_byte_of_string "NNUE" ++ le_bytes 4 0x7AF32F16 ++ le_bytes 4 177 ++
            le_bytes 4 (Z.of_nat (length (list_byte_of_string text))) ++
            list_byte_of_string text ++ parameters) ∧
    le_bytes 4 0x7AF32F16 = [x16; x2f; xf3; x7a] ∧
    le_bytes 4 177 = [xb1; x00; x00; x00] ∧
    ∀ blob, file (export_stockfish_nnue astype self path w).2 = Some blob →
      read_header blob =
        Some (mkHeader (list_byte_of_string "NNUE") 0x7AF32F16 177 text, parameters).
Proof.
  intros Hfit Hbudget. cbv zeta.
  exists (concat (ft_chunks astype self ++ out_chunks astype self)).
  rewrite export_stockfish_nnue_run by exact Hfit.
  rewrite decide_True by exact Hbudget. cbn [snd file].
  assert (Hblob : concat (all_chunks astype self) =
                  concat (header_chunks (exp_config self)) ++
                  concat (ft_chunks astype self ++ out_chunks astype self)).
  { unfold all_chunks. apply concat_app. }
  split.
  { rewrite Hblob, header_chunks_concat. unfold header_bytes.
    rewrite <- !app_assoc. reflexivity. }
  split; [reflexivity|]. split; [reflexivity|].
  intros blob Hb.
  assert (blob = concat (header_chunks (exp_config self)) ++
                 concat (ft_chunks astype self ++ out_chunks astype self)) as ->
    by congruence.
  apply read_header_written. exact Hfit.
Qed.

(** The sections of a served export of a model built by [NNUE.__init__],
    for an arbitrary cast: their order and their sizes. *)
Lemma export_sections_layout cfg ft0 ft2 out1 out3 path w :
  init_shapes cfg ft0 ft2 out1 out3 →
  description_fits cfg →
  (12 ≤ io_budget w)%nat →
  let ftw := tobytes astype Int16 (concat (weight ft0)) in
  let ftb := tobytes astype Int32 (bias ft0) in
  let o1w := tobytes astype Int8 (concat (weight out1)) in
  let o1b := tobytes astype Int32 (bias out1) in
  let o3w := tobytes astype Int8 (concat (weight out3)) in
  let o3b := tobytes astype Int32 (bias out3) in
  let result :=
    export_stockfish_nnue astype
      (mkExporter (NNUE_init cfg ft0 ft2 out1 out3) cfg) path w in
  result.1 = inr tt ∧
  file result.2 =
    Some (header_bytes cfg ++ ftw ++ ftb ++ o1w ++ o1b ++ o3w ++ o3b) ∧
  Z.of_nat (length ftw) = input_size cfg * hidden_size cfg * 2 ∧
  Z.of_nat (length ftb) = hidden_size cfg * 4 ∧
  Z.of_nat (length o1w) = 32 * 32 * 1 ∧
  Z.of_nat (length o1b) = 32 * 4 ∧
  Z.of_nat (length o3w) = 32 * 1 * 1 ∧
  Z.of_nat (length o3b) = 1 * 4.
Proof.
  intros (H0 & H2 & H1 & H3) Hfit Hbudget. cbv zeta.
  rewrite export_stockfish_nnue_run by exact Hfit.
  rewrite all_chunks_init.
  rewrite decide_True by (rewrite !length_app; simpl; lia).
  cbn [fst snd file].
  destruct (weight_bytes_length Int16 ft0 _ _ H0) as [Hw0 _].
  destruct (weight_bytes_length Int32 ft0 _ _ H0) as [_ Hb0].
  destruct (weight_bytes_length Int8 out1 _ _ H1) as [Hw1 _].
  destruct (weight_bytes_length Int32 out1 _ _ H1) as [_ Hb1].
  destruct (weight_bytes_length Int8 out3 _ _ H3) as [Hw3 _].
  destruct (weight_bytes_length Int32 out3 _ _ H3) as [_ Hb3].
  cbn [itemsize] in *.
  split; [reflexivity|].
  split.
  { rewrite concat_app, header_chunks_concat. cbn [concat app].
    rewrite app_nil_r, <- ?app_assoc. reflexivity. }
  repeat (split; [assumption|]). assumption.
Qed.

(** C6.  For a model built by [NNUE.__init__], the loops select
    [feature_transformer.0.weight], [feature_transformer.0.bias] and the four
    [output_layers] parameters, so a served export holds the header followed
    by these six tensors only; the second linear layer of the feature
    transformer ([feature_transformer.2]) contributes nothing: replacing it
    changes neither the file nor anything else the call does. *)
Theorem second_transformer_layer_not_exported cfg mcfg ft0 ft2 out1 out3 path w :
  description_fits cfg →
  (12 ≤ io_budget w)%nat →
  let model := NNUE_init mcfg ft0 ft2 out1 out3 in
  map fst (named_parameters model) =
    ["feature_transformer.0.weight"; "feature_transformer.0.bias";
     "feature_transformer.2.weight"; "feature_transformer.2.bias";
     "output_layers.1.weight"; "output_layers.1.bias";
     "output_layers.3.weight"; "output_layers.3.bias"] ∧
  map fst (filter (λ p, is_Some (ft_chunk astype p)) (named_parameters model)) =
    ["feature_transformer.0.weight"; "feature_transformer.0.bias"] ∧
  map fst (filter (λ p, is_Some (out_chunk astype p)) (named_parameters model)) =
    ["output_layers.1.weight"; "output_layers.1.bias";
     "output_layers.3.weight"; "output_layers.3.bias"] ∧
  file (export_stockfish_nnue astype (mkExporter model cfg) path w).2 =
    Some (header_bytes cfg ++
          tobytes astype Int16 (concat (weight ft0)) ++
          tobytes astype Int32 (bias ft0) ++
          tobytes astype Int8 (concat (weight out1)) ++
          tobytes astype Int32 (bias out1) ++
          tobytes astype Int8 (concat (weight out3)) ++
          tobytes astype Int32 (bias out3)) ∧
  ∀ ft2' w',
    export_stockfish_nnue astype
      (mkExporter (NNUE_init mcfg ft0 ft2' out1 out3) cfg) path w' =
    export_stockfish_nnue astype (mkExporter model cfg) path w'.
Proof.
  intros Hfit Hbudget. cbv zeta.
  split; [reflexivity|]. split; [reflexivity|]. split; [reflexivity|].
  split.
  - rewrite export_stockfish_nnue_run by exact Hfit.
    rewrite all_chunks_init.
    rewrite decide_True by (rewrite !length_app; simpl; lia).
    cbn [snd file].
    rewrite concat_app, header_chunks_concat. cbn [concat app].
    rewrite app_nil_r, <- ?app_assoc. reflexivity.
  - intros ft2' w'. unfold export_stockfish_nnue.
    apply bind_ext. intros _ w1. unfold try_except, bind.
    rewrite (export_body_same_chunks
               (mkExporter (NNUE_init mcfg ft0 ft2' out1 out3) cfg)
               (mkExporter (NNUE_init mcfg ft0 ft2 out1 out3) cfg))
      by reflexivity.
    reflexivity.
Qed.

End Exporter_facts.

(* ===================================================================== *)
(** * The export on sample devices *)
(* ===================================================================== *)

Section Exporter_samples.
Import Arch Exporter.

Lemma config_768_256_fits : description_fits config_768_256.
Proof. vm_compute. reflexivity. Qed.


(** C3, as stated, fails: on a device that serves the [open] and one write,
    the body raises [OSError], yet the call returns normally and leaves the
    four bytes of the tag in the file. *)
Lemma export_failure_not_propagated :
  (export_body keep_value exporter_2_1
     (print "Exporting to Stockfish NNUE format: out.nnue" (device 2)).2).1
    = inl (OSError "[Errno 28] No space left on device") ∧
  (export_stockfish_nnue keep_value exporter_2_1 "out.nnue" (device 2)).1 = inr tt ∧
  file (export_stockfish_nnue keep_value exporter_2_1 "out.nnue" (device 2)).2
    = Some (list_byte_of_string "NNUE") ∧
  ¬ failure_propagates keep_value exporter_2_1 "out.nnue" (device 2).
Proof.
  split; [vm_compute; reflexivity|].
  split; [vm_compute; reflexivity|].
  split; [vm_compute; reflexivity|].
  intros H.
  assert (Hbody :
    export_body keep_value exporter_2_1
      (print ("Exporting to Stockfish NNUE format: " +:+ "out.nnue") (device 2)).2 =
    (inl (OSError "[Errno 28] No space left on device"),
     {| file := Some (list_byte_of_string "NNUE");
        stdout := ["Exporting to Stockfish NNUE format: out.nnue"];
        io_budget := 0;
        io_error := "[Errno 28] No space left on device";
        io_calls := 3 |})) by (vm_compute; reflexivity).
  apply H in Hbody. vm_compute in Hbody. discriminate Hbody.
Qed.

Lemma export_failure_is_caught_witness :
  (export_stockfish_nnue keep_value exporter_2_1 "out.nnue" (device 2)).1 = inr tt ∧
  stdout (export_stockfish_nnue keep_value exporter_2_1 "out.nnue" (device 2)).2 =
    ["Exporting to Stockfish NNUE format: out.nnue";
     "Export failed: [Errno 28] No space left on device"] ∧
  io_calls (export_stockfish_nnue keep_value exporter_2_1 "out.nnue" (device 2)).2 = 3%nat.
Proof.
  assert (Hfit : description_fits (exp_config exporter_2_1)) by (vm_compute; reflexivity).
  assert (Hlow : (io_budget (device 2) < 1 + length (all_chunks keep_value exporter_2_1))%nat)
    by (vm_compute; lia).
  destruct (export_failure_is_caught keep_value exporter_2_1 "out.nnue" (device 2) Hfit Hlow)
    as (_ & Hret & Hout & _ & Hcalls).
  split; [exact Hret|]. split; [exact Hout|exact Hcalls].
Defined.

Lemma export_header_round_trip_witness :
  ∃ blob parameters,
    file (export_stockfish_nnue keep_value exporter_2_1 "out.nnue" (device 12)).2 = Some blob ∧
    read_header blob =
      Some (mkHeader (list_byte_of_string "NNUE") 0x7AF32F16 177 "NNUE 2->1->1", parameters).
Proof.
  assert (Hfit : description_fits (exp_config exporter_2_1)) by (vm_compute; reflexivity).
  assert (Hbudget : (1 + length (all_chunks keep_value exporter_2_1) ≤ io_budget (device 12))%nat)
    by (vm_compute; lia).
  destruct (export_header_round_trip keep_value exporter_2_1 "out.nnue" (device 12) Hfit Hbudget)
    as (parameters & Hfile & _ & _ & Hread).
  eexists _, parameters. split; [exact Hfile|].
  apply (Hread _ Hfile).
Defined.

Lemma second_transformer_layer_not_exported_witness :
  export_stockfish_nnue keep_value (exporter_768_256 1) "out.nnue" (device 12) =
  export_stockfish_nnue keep_value (exporter_768_256 0) "out.nnue" (device 12).
Proof.
  assert (Hbudget : (12 ≤ io_budget (device 12))%nat) by (simpl; lia).
  destruct (second_transformer_layer_not_exported keep_value
              config_768_256 config_768_256
              (const_linear 768 256 3) (const_linear 256 32 0)
              (const_linear 32 32 (-200)) (const_linear 32 1 70000)
              "out.nnue" (device 12) config_768_256_fits Hbudget)
    as (_ & _ & _ & _ & Hsame).
  exact (Hsame (const_linear 256 32 1) (device 12)).
Defined.

End Exporter_samples.

(* ===================================================================== *)
(** * The narrowing of the parameters *)
(* ===================================================================== *)

Section Narrowing_facts.
Import Arch Exporter.

Lemma truncate_unique (x : R) (n : Z) :
  ((0 <= x)%R → (IZR n <= x < IZR n + 1)%R) →
  ((x <= 0)%R → (IZR n - 1 < x <= IZR n)%R) →
  truncate x = n.
Proof.
  intros Hpos Hneg. unfold truncate.
  destruct (Rle_dec 0 x) as [H0|H0].
  - symmetry. apply Int_part_spec. specialize (Hpos H0). lra.
  - assert (Hx : (x <= 0)%R) by lra. specialize (Hneg Hx).
    assert (Hn : (- n)%Z = Int_part (- x)).
    { apply Int_part_spec. rewrite opp_IZR. lra. }
    rewrite <- Hn. lia.
Qed.

(** [truncate] rounds toward zero. *)
Lemma truncate_spec (x : R) :
  ((0 <= x)%R → (IZR (truncate x) <= x < IZR (truncate x) + 1)%R) ∧
  ((x <= 0)%R → (IZR (truncate x) - 1 < x <= IZR (truncate x))%R).
Proof.
  unfold truncate. destruct (Rle_dec 0 x) as [H0|H0].
  - destruct (base_Int_part x) as [Hlo Hhi]. split; [intros _; lra|].
    intros Hx. assert (x = 0%R) as -> by lra.
    assert (Hz : Int_part 0 = 0).
    { symmetry. apply Int_part_spec. lra. }
    rewrite Hz. lra.
  - destruct (base_Int_part (- x)%R) as [Hlo Hhi].
    split; [intros Hx; lra|]. intros _. rewrite opp_IZR. lra.
Qed.

Lemma float_astype_representable overflow d x :
  representable d (truncate x) → float_astype overflow d x = truncate x.
Proof.
  intros Hr. unfold float_astype. cbv zeta.
  rewrite decide_True by exact Hr. reflexivity.
Qed.

Lemma concat_map_rows {A} (f : A → list byte) (rows cols : nat) (v : A) :
  concat (map f (concat (replicate rows (replicate cols v)))) =
  concat (replicate (rows * cols) (f v)).
Proof.
  assert (Hrow : ∀ n, map f (replicate n v) = replicate n (f v)).
  { induction n as [|n IH]; simpl; [|rewrite IH]; reflexivity. }
  induction rows as [|rows IH]; simpl; [reflexivity|].
  rewrite map_app, concat_app, IH, Hrow, replicate_add, concat_app. reflexivity.
Qed.

Lemma concat_map_replicate {A} (f : A → list byte) (n : nat) (v : A) :
  concat (map f (replicate n v)) = concat (replicate n (f v)).
Proof. induction n as [|n IH]; simpl; [|rewrite IH]; reflexivity. Qed.

(** C5.  A served export of a model built by [NNUE.__init__], with float
    parameters, consists of the header, the first feature-transformer
    weight narrowed to 16-bit integers, immediately followed by its bias
    narrowed to 32-bit integers, and then for each linear layer of the
    output stage, in forward order, the weight narrowed to 8-bit and the
    bias to 32-bit integers.  Every section is the concatenation, element by
    element in row-major order, of the little-endian bytes of the narrowed
    element: for an element whose integer part (toward zero) is
    representable these bytes are that integer in two's complement, that
    is, read as an unsigned little-endian number they give the integer
    modulo [2^8], [2^16] or [2^32].  Nothing is rejected: the export
    succeeds for every parameter value, whatever the platform makes of an
    unrepresentable one, and each element always takes 1, 2 or 4 bytes.  The
    feature-transformer sections have [input_size*hidden_size*2] and
    [hidden_size*4] bytes, so [768*256*2] and [256*4] for a 768/256
    network. *)
Theorem export_parameter_sections (overflow : dtype → R → Z)
    cfg ft0 ft2 out1 out3 path w :
  init_shapes cfg ft0 ft2 out1 out3 →
  description_fits cfg →
  (12 ≤ io_budget w)%nat →
  let cast := float_astype overflow in
  let narrowed := λ (width : nat) (d : dtype) (a : list R),
    concat (map (λ x, le_bytes width (cast d x)) a) in
  let val := λ b : byte, Z.of_N (Byte.to_N b) in
  let ftw := narrowed 2%nat Int16 (concat (weight ft0)) in
  let ftb := narrowed 4%nat Int32 (bias ft0) in
  let o1w := narrowed 1%nat Int8 (concat (weight out1)) in
  let o1b := narrowed 4%nat Int32 (bias out1) in
  let o3w := narrowed 1%nat Int8 (concat (weight out3)) in
  let o3b := narrowed 4%nat Int32 (bias out3) in
  let result :=
    export_stockfish_nnue cast
      (mkExporter (NNUE_init cfg ft0 ft2 out1 out3) cfg) path w in
  result.1 = inr tt ∧
  file result.2 =
    Some (header_bytes cfg ++ ftw ++ ftb ++ o1w ++ o1b ++ o3w ++ o3b) ∧
  (∀ x, -128 <= truncate x <= 127 →
     ∃ b0, le_bytes 1 (cast Int8 x) = [b0] ∧
           val b0 = truncate x mod 2 ^ 8) ∧
  (∀ x, -32768 <= truncate x <= 32767 →
     ∃ b0 b1, le_bytes 2 (cast Int16 x) = [b0; b1] ∧
              val b0 + 2 ^ 8 * val b1 = truncate x mod 2 ^ 16) ∧
  (∀ x, -2147483648 <= truncate x <= 2147483647 →
     ∃ b0 b1 b2 b3, le_bytes 4 (cast Int32 x) = [b0; b1; b2; b3] ∧
       val b0 + 2 ^ 8 * val b1 + 2 ^ 16 * val b2 + 2 ^ 24 * val b3
       = truncate x mod 2 ^ 32) ∧
  (∀ x : R,
     ((0 <= x)%R → (IZR (truncate x) <= x < IZR (truncate x) + 1)%R) ∧
     ((x <= 0)%R → (IZR (truncate x) - 1 < x <= IZR (truncate x))%R)) ∧
  (∀ (width : nat) d x, length (le_bytes width (cast d x)) = width) ∧
  Z.of_nat (length ftw) = input_size cfg * hidden_size cfg * 2 ∧
  Z.of_nat (length ftb) = hidden_size cfg * 4 ∧
  Z.of_nat (length o1w) = 32 * 32 * 1 ∧
  Z.of_nat (length o1b) = 32 * 4 ∧
  Z.of_nat (length o3w) = 32 * 1 * 1 ∧
  Z.of_nat (length o3b) = 1 * 4 ∧
  (input_size cfg = 768 → hidden_size cfg = 256 →
   Z.of_nat (length ftw) = 768 * 256 * 2 ∧ Z.of_nat (length ftb) = 256 * 4).
Proof.
  intros Hs Hfit Hbudget. cbv zeta.
  destruct (export_sections_layout (float_astype overflow)
              cfg ft0 ft2 out1 out3 path w Hs Hfit Hbudget)
    as (Hret & Hfile & Hw0 & Hb0 & Hw1 & Hb1 & Hw3 & Hb3).
  split; [exact Hret|]. split; [exact Hfile|].
  split.
  { intros x Hx. rewrite (float_astype_representable overflow Int8 x) by exact Hx.
    eexists. split; [reflexivity|].
    pose proof (le_int_le_bytes_mod 1 (truncate x)) as H.
    cbn [le_bytes le_int] in H. change (256 ^ Z.of_nat 1) with 256 in H.
    change (2 ^ 8) with 256. lia. }
  split.
  { intros x Hx. rewrite (float_astype_representable overflow Int16 x) by exact Hx.
    eexists _, _. split; [reflexivity|].
    pose proof (le_int_le_bytes_mod 2 (truncate x)) as H.
    cbn [le_bytes le_int] in H. change (256 ^ Z.of_nat 2) with 65536 in H.
    change (2 ^ 8) with 256. change (2 ^ 16) with 65536. lia. }
  split.
  { intros x Hx. rewrite (float_astype_representable overflow Int32 x) by exact Hx.
    eexists _, _, _, _. split; [reflexivity|].
    pose proof (le_int_le_bytes_mod 4 (truncate x)) as H.
    cbn [le_bytes le_int] in H. change (256 ^ Z.of_nat 4) with 4294967296 in H.
    change (2 ^ 8) with 256. change (2 ^ 16) with 65536.
    change (2 ^ 24) with 16777216. change (2 ^ 32) with 4294967296. lia. }
  split; [exact truncate_spec|].
  split; [intros width d x; apply le_bytes_length|].
  repeat (split; [assumption|]).
  intros Hin Hhid. rewrite Hin, Hhid in *. split; assumption.
Qed.

Lemma float_cast_values :
  float_astype zero_overflow Int16 (7 / 2) = 3 ∧
  float_astype zero_overflow Int16 (- 7 / 2) = -3 ∧
  float_astype zero_overflow Int16 1 = 1 ∧
  float_astype zero_overflow Int16 258 = 258 ∧
  float_astype zero_overflow Int32 (80001 / 2) = 40000 ∧
  float_astype zero_overflow Int32 (-1) = -1 ∧
  float_astype zero_overflow Int8 (- 5 / 2) = -2 ∧
  float_astype zero_overflow Int32 (- 5 / 2) = -2 ∧
  float_astype zero_overflow Int8 300 = 0 ∧
  float_astype zero_overflow Int32 300 = 300.
Proof.
  assert (H1 : truncate (7 / 2) = 3) by (apply truncate_unique; intros; lra).
  assert (H2 : truncate (- 7 / 2) = -3) by (apply truncate_unique; intros; lra).
  assert (H3 : truncate 1 = 1) by (apply truncate_unique; intros; lra).
  assert (H4 : truncate 258 = 258) by (apply truncate_unique; intros; lra).
  assert (H5 : truncate (80001 / 2) = 40000) by (apply truncate_unique; intros; lra).
  assert (H6 : truncate (-1) = -1) by (apply truncate_unique; intros; lra).
  assert (H7 : truncate (- 5 / 2) = -2) by (apply truncate_unique; intros; lra).
  assert (H8 : truncate 300 = 300) by (apply truncate_unique; intros; lra).
  unfold float_astype. cbv zeta.
  rewrite H1, H2, H3, H4, H5, H6, H7, H8. repeat split.
Qed.

(** The file written for [float_exporter], byte for byte: 3.5 and -3.5 are
    stored as 3 and -3 (toward zero), the rows follow one another, 40000.5
    is stored as the 32-bit 40000, and the weights 300 of the last layer,
    which no 8-bit integer represents, are stored all the same.  For a
    768/256 network the two feature-transformer sections have 393216 and
    1024 bytes. *)
Lemma export_parameter_sections_witness :
  (let result :=
     export_stockfish_nnue (float_astype zero_overflow) float_exporter
       "out.nnue" (device 12) in
   result.1 = inr tt ∧
   file result.2 =
     Some (header_bytes config_2_2 ++
           [x03; x00; xfd; xff; x01; x00; x02; x01] ++
           [x40; x9c; x00; x00; xff; xff; xff; xff] ++
           replicate 1024 xfe ++
           concat (replicate 32 [xfe; xff; xff; xff]) ++
           replicate 32 x00 ++
           [x2c; x01; x00; x00])) ∧
  (let narrowed := λ (width : nat) (d : dtype) (a : list R),
     concat (map (λ x, le_bytes width (float_astype zero_overflow d x)) a) in
   Z.of_nat (length (narrowed 2%nat Int16
                       (concat (weight (const_linear 768 256 (7 / 2)%R))))) = 393216 ∧
   Z.of_nat (length (narrowed 4%nat Int32
                       (bias (const_linear 768 256 (7 / 2)%R)))) = 1024).
Proof.
  destruct float_cast_values
    as (C1 & C2 & C3 & C4 & C5 & C6 & C7 & C8 & C9 & C10).
  split.
  - assert (Hshape : init_shapes config_2_2 float_ft0 (const_linear 2 32 0%R)
                       (const_linear 32 32 (- 5 / 2)%R) (const_linear 32 1 300%R)).
    { split; [|split; [apply (const_linear_shape 2 32)
                      |split; [apply (const_linear_shape 32 32)
                              |apply (const_linear_shape 32 1)]]].
      repeat split; simpl; try reflexivity.
      repeat constructor. }
    assert (Hfit : description_fits config_2_2).
    { unfold description_fits, description. simpl. lia. }
    assert (Hbudget : (12 ≤ io_budget (device 12))%nat) by (simpl; lia).
    destruct (export_parameter_sections zero_overflow config_2_2
                float_ft0 (const_linear 2 32 0%R)
                (const_linear 32 32 (- 5 / 2)%R) (const_linear 32 1 300%R)
                "out.nnue" (device 12) Hshape Hfit Hbudget)
      as (Hret & Hfile & _).
    cbv zeta. split; [exact Hret|].
    unfold float_exporter. rewrite Hfile. clear Hret Hfile.
    do 2 f_equal.
    unfold const_linear, float_ft0. cbn [weight bias].
    rewrite !concat_map_rows, !concat_map_replicate.
    cbn [concat map app].
    rewrite C1, C2, C3, C4, C5, C6, C7, C8, C9, C10.
    vm_compute. reflexivity.
  - assert (Hshape : init_shapes Net.zero_config
                       (const_linear 768 256 (7 / 2)%R) (const_linear 256 32 0%R)
                       (const_linear 32 32 0%R) (const_linear 32 1 0%R)).
    { split; [apply (const_linear_shape 768 256)
             |split; [apply (const_linear_shape 256 32)
                     |split; [apply (const_linear_shape 32 32)
                             |apply (const_linear_shape 32 1)]]]. }
    assert (Hfit : description_fits Net.zero_config).
    { unfold description_fits, description. simpl. lia. }
    assert (Hbudget : (12 ≤ io_budget (device 12))%nat) by (simpl; lia).
    destruct (export_parameter_sections zero_overflow Net.zero_config
                (const_linear 768 256 (7 / 2)%R) (const_linear 256 32 0%R)
                (const_linear 32 32 0%R) (const_linear 32 1 0%R)
                "out.nnue" (device 12) Hshape Hfit Hbudget)
      as (_ & _ & _ & _ & _ & _ & _ & _ & _ & _ & _ & _ & _ & Hbig).
    cbv zeta. apply Hbig; reflexivity.
Defined.

End Narrowing_facts.

(* ===================================================================== *)
(** * Further properties of the HalfKP encoding *)
(* ===================================================================== *)

Section HalfKP_counting.
Import HalfKP Mirror.

Lemma popcount_cons b (l : FeatureVector) :
  popcount (b :: l) = ((if b then 1 else 0) + popcount l)%nat.
Proof.
  unfold popcount. rewrite filter_cons. destruct b.
  - rewrite decide_True by reflexivity. reflexivity.
  - rewrite decide_False by discriminate. reflexivity.
Qed.

Lemma popcount_insert_le (l : FeatureVector) i :
  (popcount (<[i:=true]> l) ≤ S (popcount l))%nat.
Proof.
  revert i. induction l as [|b l IH]; intros [|i]; simpl; try lia.
  - rewrite !popcount_cons. destruct b; lia.
  - rewrite !popcount_cons. specialize (IH i). lia.
Qed.

Lemma popcount_insert_fresh (l : FeatureVector) i :
  l !! i = Some false → popcount (<[i:=true]> l) = S (popcount l).
Proof.
  revert i. induction l as [|b l IH]; intros [|i]; simpl; try discriminate.
  - intros [= ->]. rewrite !popcount_cons. lia.
  - intros H. rewrite !popcount_cons, (IH i H). lia.
Qed.

Lemma non_king_pieces_insert (m : gmap Z Piece) square piece :
  m !! square = None →
  size (filter (λ kv : Z * Piece, piece_type kv.2 ≠ KING) (<[square:=piece]> m)) =
  ((if decide (piece_type piece = KING) then 0 else 1) +
   size (filter (λ kv : Z * Piece, piece_type kv.2 ≠ KING) m))%nat.
Proof.
  intros Hfresh. destruct (decide (piece_type piece = KING)) as [Hk|Hk].
  - rewrite map_filter_insert_False by (simpl; tauto).
    rewrite delete_id by exact Hfresh. reflexivity.
  - rewrite map_filter_insert_True by exact Hk.
    rewrite map_size_insert_None; [reflexivity|].
    apply map_lookup_filter_None. left. exact Hfresh.
Qed.

(** X1.  Whatever the board and the perspective, the vector has at most as
    many set entries as the board has non-king pieces. *)
Theorem popcount_at_most_pieces (board : Board) (c : Color) :
  (popcount (_get_halfkp_features board c) ≤ non_king_pieces board)%nat.
Proof.
  unfold _get_halfkp_features, non_king_pieces.
  destruct (king board c) as [k|]; cbv zeta.
  2:{ change (popcount (replicate 768 false)) with 0%nat. lia. }
  generalize (oriented c k). clear k. intros k.
  induction (piece_map board) as [|square piece m Hfresh Hfirst IH]
    using map_first_key_ind.
  - rewrite map_fold_empty. change (popcount (replicate 768 false)) with 0%nat. lia.
  - rewrite map_fold_insert_first_key by assumption.
    rewrite non_king_pieces_insert by exact Hfresh.
    unfold encode_piece at 1.
    destruct (decide (piece_type piece = KING)); [exact IH|].
    cbv zeta. case_decide.
    + pose proof (popcount_insert_le
        (map_fold (encode_piece c k) (replicate 768 false) m)
        (Z.to_nat (piece_feature_idx c k square piece))). lia.
    + lia.
Qed.

Lemma square_mirror_involutive s : square_mirror (square_mirror s) = s.
Proof.
  unfold square_mirror.
  rewrite Z.lxor_assoc, Z.lxor_nilpotent, Z.lxor_0_r. reflexivity.
Qed.

Lemma square_mirror_range s : 0 <= s < 64 → 0 <= square_mirror s < 64.
Proof.
  intros Hs.
  pose proof (Z.div_mod s 8 ltac:(lia)) as Hdm.
  pose proof (Z.mod_pos_bound s 8 ltac:(lia)) as Hm.
  assert (0 <= s / 8 < 8).
  { split; [apply Z.div_pos; lia|apply Z.div_lt_upper_bound; lia]. }
  assert (Hflip : square_mirror s = 8 * (7 - s / 8) + s mod 8).
  { rewrite Hdm at 1. apply square_mirror_rank_flip; lia. }
  lia.
Qed.

Lemma oriented_range c s : 0 <= s < 64 → 0 <= oriented c s < 64.
Proof. destruct c; simpl; [apply square_mirror_range|tauto]. Qed.

Lemma oriented_inj c s s' : oriented c s = oriented c s' → s = s'.
Proof.
  destruct c; simpl; [|tauto]. intros H.
  rewrite <- (square_mirror_involutive s), H. apply square_mirror_involutive.
Qed.

(** X2.  When the perspective's king stands on the first square (a1 for
    white, a8 for black) of a board with squares 0..63, no piece is dropped
    and no two pieces share an index: the number of set entries is the
    number of non-king pieces. *)
Theorem corner_king_counts_every_piece (board : Board) (c : Color) (k : Z) :
  king board c = Some k →
  oriented c k = 0 →
  on_board board →
  popcount (_get_halfkp_features board c) = non_king_pieces board.
Proof.
  intros Hk H0. unfold _get_halfkp_features, non_king_pieces, on_board.
  rewrite Hk. cbv zeta. rewrite H0. clear Hk H0 k.
  induction (piece_map board) as [|square piece m Hfresh Hfirst IH]
    using map_first_key_ind; intros Hon.
  - rewrite map_fold_empty. reflexivity.
  - rewrite map_fold_insert_first_key by assumption.
    rewrite non_king_pieces_insert by exact Hfresh.
    assert (Hon' : ∀ sq p, m !! sq = Some p → 0 <= sq < 64).
    { intros sq p Hp. apply (Hon sq p).
      rewrite lookup_insert_ne; [exact Hp|]. intros ->. congruence. }
    specialize (IH Hon').
    destruct (encode_loop_spec c 0 m) as [Hlen Hspec]. cbv zeta in Hlen, Hspec.
    unfold encode_piece at 1.
    destruct (decide (piece_type piece = KING)) as [Hking|Hking]; [exact IH|].
    cbv zeta.
    pose proof (oriented_range c square (Hon square piece (lookup_insert_eq _ _ _))) as Hsq.
    assert (Hidx : 0 <= piece_feature_idx c 0 square piece < 768).
    { unfold piece_feature_idx, feature_idx, piece_color.
      destruct (decide (color piece = c)), (piece_type piece);
        simpl; try lia; congruence. }
    rewrite decide_True by exact Hidx.
    rewrite popcount_insert_fresh; [rewrite IH; reflexivity|].
    destruct (map_fold (encode_piece c 0) (replicate 768 false) m
                !! Z.to_nat (piece_feature_idx c 0 square piece)) as [[|]|] eqn:Hr.
    + exfalso. apply Hspec in Hr.
      destruct Hr as (sq' & p' & Hp' & Hnk' & Hin' & Heq).
      pose proof (oriented_range c sq' (Hon' sq' p' Hp')) as Hsq'.
      assert (oriented c square = oriented c sq').
      { unfold piece_feature_idx, feature_idx, piece_color in Heq, Hidx.
        apply Z2Nat.inj in Heq; [|lia..].
        destruct (decide (color piece = c)), (decide (color p' = c)),
          (piece_type piece), (piece_type p'); simpl in *; lia. }
      apply oriented_inj in H. subst sq'. congruence.
    + reflexivity.
    + apply lookup_ge_None in Hr. lia.
Qed.

Lemma corner_king_counts_every_piece_witness :
  popcount (_get_halfkp_features corner_board WHITE) = non_king_pieces corner_board.
Proof.
  apply (corner_king_counts_every_piece corner_board WHITE 0); [reflexivity..|].
  intros square piece. unfold corner_board. cbn [piece_map].
  intros H. apply lookup_insert_Some in H as [[<- _]|[_ H]]; [lia|].
  apply lookup_insert_Some in H as [[<- _]|[_ H]]; [lia|].
  rewrite lookup_empty in H. discriminate.
Defined.

End HalfKP_counting.

Section HalfKP_mirror.
Import HalfKP Mirror.

#[local] Instance square_mirror_inj : Inj (=) (=) square_mirror.
Proof.
  intros s s' H.
  rewrite <- (square_mirror_involutive s), H. apply square_mirror_involutive.
Qed.

Lemma flip_color_involutive c : flip_color (flip_color c) = c.
Proof. destruct c; reflexivity. Qed.

Lemma oriented_flip_mirror c s :
  oriented (flip_color c) (square_mirror s) = oriented c s.
Proof. destruct c; simpl; [reflexivity|apply square_mirror_involutive]. Qed.

Lemma mirror_lookup (board : Board) square :
  piece_map (mirror_board board) !! square =
  flip_piece <$> piece_map board !! square_mirror square.
Proof.
  unfold mirror_board. cbn [piece_map].
  rewrite <- (square_mirror_involutive square) at 1.
  rewrite lookup_kmap by apply square_mirror_inj.
  rewrite lookup_fmap. reflexivity.
Qed.

Lemma bool_list_ext (l1 l2 : list bool) :
  length l1 = length l2 →
  (∀ i, l1 !! i = Some true ↔ l2 !! i = Some true) →
  l1 = l2.
Proof.
  intros Hlen Hiff. apply list_eq. intros i.
  destruct (l1 !! i) as [b1|] eqn:H1, (l2 !! i) as [b2|] eqn:H2.
  - destruct b1, b2; try reflexivity.
    + apply Hiff in H1. congruence.
    + apply Hiff in H2. congruence.
  - apply lookup_lt_Some in H1. apply lookup_ge_None in H2. lia.
  - apply lookup_ge_None in H1. apply lookup_lt_Some in H2. lia.
  - reflexivity.
Qed.

Lemma feature_of_mirror (board : Board) c K i :
  feature_of (flip_color c) K (piece_map (mirror_board board)) i ↔
  feature_of c K (piece_map board) i.
Proof.
  assert (Hcol : ∀ p : Piece,
            (if decide (color (flip_piece p) = flip_color c) then 0 else 1) =
            (if decide (color p = c) then 0 else 1)).
  { intros [t pc]. simpl. destruct pc, c; reflexivity. }
  unfold feature_of. split.
  - intros (sq & p & Hp & Hnk & Hidx).
    rewrite mirror_lookup in Hp.
    destruct (piece_map board !! square_mirror sq) as [p0|] eqn:Hp0; [|discriminate].
    injection Hp as <-.
    exists (square_mirror sq), p0. split; [exact Hp0|]. split; [exact Hnk|].
    cbv zeta in *. rewrite Hcol in Hidx.
    rewrite <- (oriented_flip_mirror c (square_mirror sq)), square_mirror_involutive.
    exact Hidx.
  - intros (sq & p & Hp & Hnk & Hidx).
    exists (square_mirror sq), (flip_piece p).
    split; [rewrite mirror_lookup, square_mirror_involutive, Hp; reflexivity|].
    split; [exact Hnk|].
    cbv zeta in *. rewrite Hcol, oriented_flip_mirror. exact Hidx.
Qed.

Lemma is_king_of_mirror (board : Board) c square :
  is_king_of (mirror_board board) (flip_color c) square =
  is_king_of board c (square_mirror square).
Proof.
  unfold is_king_of. rewrite mirror_lookup.
  destruct (piece_map board !! square_mirror square) as [[t pc]|]; [|reflexivity].
  simpl. f_equal; [f_equal|].
  - apply bool_decide_ext. destruct pc, c; simpl; split; congruence.
  - apply bool_decide_ext. unfold mirror_board. cbn [promoted].
    rewrite elem_of_map. split.
    + intros Hn Hin. apply Hn. exists (square_mirror square).
      rewrite square_mirror_involutive. auto.
    + intros Hn (s & Hs & Hin). apply Hn.
      rewrite Hs, square_mirror_involutive. exact Hin.
Qed.

Lemma msb_below_Some f n j : msb_below f n = Some j → f j = true ∧ 0 <= j < Z.of_nat n.
Proof.
  induction n as [|n IH]; simpl; [discriminate|].
  destruct (f (Z.of_nat n)) eqn:Hf.
  - intros [= <-]. split; [exact Hf|lia].
  - intros H. destruct (IH H). split; [assumption|lia].
Qed.

Lemma msb_below_unique f n j :
  f j = true → 0 <= j < Z.of_nat n →
  (∀ j', 0 <= j' < Z.of_nat n → f j' = true → j' = j) →
  msb_below f n = Some j.
Proof.
  intros Hj Hlt Huniq. induction n as [|n IH]; [lia|].
  simpl. destruct (f (Z.of_nat n)) eqn:Hf.
  - f_equal. apply Huniq; [lia|exact Hf].
  - apply IH.
    + destruct (decide (j = Z.of_nat n)) as [->|]; [congruence|lia].
    + intros j' Hj'. apply Huniq. lia.
Qed.

(** X3.  Perspective symmetry: when the side [c] has exactly one king,
    encoding the board from the perspective [c] and encoding its
    colour-reversed mirror image from the other perspective give the same
    feature vector. *)
Theorem mirror_symmetry (board : Board) (c : Color) (k : Z) :
  king board c = Some k →
  (∀ square, is_king_of board c square = true → square = k) →
  _get_halfkp_features (mirror_board board) (flip_color c) =
  _get_halfkp_features board c.
Proof.
  intros Hk Huniq.
  assert (Hk' : king (mirror_board board) (flip_color c) = Some (square_mirror k)).
  { apply msb_below_Some in Hk as [Hking Hrange].
    apply msb_below_unique.
    - rewrite is_king_of_mirror, square_mirror_involutive. exact Hking.
    - apply square_mirror_range. exact Hrange.
    - intros j _ Hj. rewrite is_king_of_mirror in Hj.
      apply Huniq in Hj. rewrite <- Hj. symmetry. apply square_mirror_involutive. }
  unfold _get_halfkp_features. rewrite Hk, Hk'. cbv zeta.
  rewrite oriented_flip_mirror.
  destruct (encode_loop_spec (flip_color c) (oriented c k)
              (piece_map (mirror_board board))) as [Hlen1 Hspec1].
  destruct (encode_loop_spec c (oriented c k) (piece_map board)) as [Hlen2 Hspec2].
  cbv zeta in *.
  apply bool_list_ext; [congruence|].
  intros i. rewrite Hspec1, Hspec2. apply feature_of_mirror.
Qed.

Lemma mirror_symmetry_witness :
  _get_halfkp_features (mirror_board rook_ending) WHITE =
  _get_halfkp_features rook_ending BLACK.
Proof.
  apply (mirror_symmetry rook_ending BLACK 56); [reflexivity|].
  intros square. unfold is_king_of, rook_ending. cbn [piece_map].
  destruct (_ !! square) as [p|] eqn:Hp; [|discriminate].
  apply lookup_insert_Some in Hp as [[<- <-]|[_ Hp]]; [discriminate|].
  apply lookup_insert_Some in Hp as [[<- <-]|[_ Hp]]; [reflexivity|].
  apply lookup_insert_Some in Hp as [[<- <-]|[_ Hp]]; [discriminate|].
  rewrite lookup_empty in Hp. discriminate.
Defined.

End HalfKP_mirror.

(* ===================================================================== *)
(** * Further properties of evaluation and of the training samples *)
(* ===================================================================== *)

Section Scores_and_samples.
Import HalfKP Mirror Arch Net Dataset.
Local Open Scope R_scope.

Lemma features_length (board : Board) (c : Color) :
  length (_get_halfkp_features board c) = 768%nat.
Proof.
  unfold _get_halfkp_features. destruct (king board c) as [k|]; cbv zeta.
  - apply (encode_loop_spec c (oriented c k) (piece_map board)).
  - apply length_replicate.
Qed.



(** X5.  The score does not depend on the position once the mover's king is
    away from the first two squares of its perspective: two boards (squares
    0..63) with the same side to move, whose mover's kings stand on oriented
    squares 2 or higher, get the same evaluation from every model. *)
Theorem evaluation_ignores_position (model : NNUE R) (b1 b2 : Board) (k1 k2 : Z) :
  turn b1 = turn b2 →
  king b1 (turn b1) = Some k1 → (2 <= oriented (turn b1) k1)%Z → on_board b1 →
  king b2 (turn b2) = Some k2 → (2 <= oriented (turn b2) k2)%Z → on_board b2 →
  evaluate_position model b1 = evaluate_position model b2.
Proof.
  intros Hturn Hk1 Hf1 Hon1 Hk2 Hf2 Hon2.
  pose proof (far_king_zero_vector b1 (turn b1) k1 Hk1 Hf1 Hon1) as Hz1.
  pose proof (far_king_zero_vector b2 (turn b2) k2 Hk2 Hf2 Hon2) as Hz2.
  unfold evaluate_position, position_to_features.
  rewrite <- Hturn in *. destruct (turn b1); rewrite Hz1, Hz2; reflexivity.
Qed.

Lemma on_board_decide (board : Board) :
  map_Forall (λ square _, 0 <= square < 64)%Z (piece_map board) → on_board board.
Proof. intros H square piece Hp. exact (H square piece Hp). Qed.

Lemma evaluation_ignores_position_witness :
  evaluate_position zero_model starting_board = evaluate_position zero_model bare_kings.
Proof.
  apply (evaluation_ignores_position zero_model starting_board bare_kings 4 4).
  - reflexivity.
  - reflexivity.
  - simpl. lia.
  - apply on_board_decide. apply (bool_decide_unpack _). vm_compute. reflexivity.
  - reflexivity.
  - simpl. lia.
  - apply on_board_decide. apply (bool_decide_unpack _). vm_compute. reflexivity.
Defined.

Lemma clip_bounds a : -1 <= clip a (-1) 1 <= 1.
Proof.
  unfold clip. split.
  - apply Rmin_glb; [apply Rmax_r|lra].
  - apply Rmin_r.
Qed.

Lemma clip_opp a : clip (- a) (-1) 1 = - clip a (-1) 1.
Proof.
  unfold clip, Rmin, Rmax.
  repeat (destruct (Rle_dec _ _)); lra.
Qed.

(** X6.  The training target always lies in [[-1, 1]], it saturates at the
    bounds for evaluations of magnitude [eval_scale] or more, and the target
    of a position with black to move is the negation of the target the same
    stored evaluation gets with white to move. *)
Theorem training_target_range (scale evaluation : R) (side : Color) :
  0 < scale →
  -1 <= to_training_target scale evaluation side <= 1 ∧
  to_training_target scale evaluation BLACK =
    - to_training_target scale evaluation WHITE ∧
  (scale <= evaluation → to_training_target scale evaluation WHITE = 1) ∧
  (evaluation <= - scale → to_training_target scale evaluation WHITE = -1).
Proof.
  intros Hs. unfold to_training_target. cbv zeta.
  split; [apply clip_bounds|].
  split.
  { rewrite <- clip_opp. f_equal. field. lra. }
  split; intros He.
  - assert (1 <= evaluation / scale).
    { apply Rmult_le_reg_r with scale; [exact Hs|].
      unfold Rdiv. rewrite Rmult_assoc, Rinv_l by lra. lra. }
    unfold clip. rewrite Rmax_left by lra. apply Rmin_right. lra.
  - assert (evaluation / scale <= -1).
    { apply Rmult_le_reg_r with scale; [exact Hs|].
      unfold Rdiv. rewrite Rmult_assoc, Rinv_l by lra. lra. }
    unfold clip. rewrite Rmax_right by lra. apply Rmin_left. lra.
Qed.

Lemma training_target_range_witness :
  to_training_target 361 1000 BLACK = - to_training_target 361 1000 WHITE ∧
  to_training_target 361 1000 WHITE = 1.
Proof.
  destruct (training_target_range 361 1000 WHITE ltac:(lra)) as (_ & Hneg & Hsat & _).
  split; [exact Hneg|]. apply Hsat. lra.
Defined.

Lemma outcome_of_values (result : string) (side : Color) :
  outcome_of result side = 0 ∨ outcome_of result side = 1 / 2 ∨
  outcome_of result side = 1.
Proof.
  unfold outcome_of.
  destruct (decide (result = "1-0")), (decide (result = "0-1")), side; auto.
Qed.

(** X7.  The outcome label is one of 0, 1/2, 1; the labels that one game
    result gets for the two sides to move add up to 1; and every result
    other than ["1-0"] and ["0-1"] counts as a draw. *)
Theorem outcome_zero_sum (result : string) (side : Color) :
  (outcome_of result side = 0 ∨ outcome_of result side = 1 / 2 ∨
   outcome_of result side = 1) ∧
  outcome_of result WHITE + outcome_of result BLACK = 1 ∧
  (result ≠ "1-0" → result ≠ "0-1" → outcome_of result side = 1 / 2).
Proof.
  unfold outcome_of.
  destruct (decide (result = "1-0")), (decide (result = "0-1")), side;
    repeat split; try tauto; try lra; try congruence; auto.
Qed.

Lemma outcome_zero_sum_witness : outcome_of "1/2-1/2" BLACK = 1 / 2.
Proof.
  destruct (outcome_zero_sum "1/2-1/2" BLACK) as (_ & _ & Hdraw).
  apply Hdraw; discriminate.
Defined.

(** X8.  Every index from [-len] to [len - 1] yields a sample, provided
    [eval_scale] is not zero: 768 features, one evaluation in [[-1, 1]] and
    one outcome; any other index raises [IndexError]. *)
Theorem getitem_sample (positions : list Position) (cfg : TrainingConfig R) (idx : Z) :
  eval_scale cfg ≠ 0 →
  ((- __len__ positions <= idx < __len__ positions)%Z →
   ∃ features e o,
     __getitem__ positions cfg idx = inr (mkSample features [e] [o]) ∧
     length features = 768%nat ∧ -1 <= e <= 1 ∧ 0 <= o <= 1) ∧
  (¬ (- __len__ positions <= idx < __len__ positions)%Z →
   __getitem__ positions cfg idx = inl IndexError).
Proof.
  intros Hscale. unfold __getitem__, __len__, list_index. split.
  - intros Hidx.
    assert (Hsome : ∃ pos,
              (if decide (0 <= idx)%Z then positions !! Z.to_nat idx
               else if decide (- Z.of_nat (length positions) <= idx)%Z
                    then positions !! Z.to_nat (Z.of_nat (length positions) + idx)
                    else None) = Some pos).
    { destruct (decide (0 <= idx)%Z).
      - apply lookup_lt_is_Some_2. lia.
      - rewrite decide_True by lia. apply lookup_lt_is_Some_2. lia. }
    destruct Hsome as [[[board evaluation] result] ->].
    unfold position_to_features.
    destruct (Req_dec_T (eval_scale cfg) 0) as [|_]; [contradiction|].
    eexists _, _, _. split; [reflexivity|].
    split.
    { unfold tensor_of_features. rewrite length_map.
      destruct (turn board); apply features_length. }
    split; [apply clip_bounds|].
    destruct (outcome_of_values result (turn board)) as [H|[H|H]]; rewrite H; lra.
  - intros Hidx.
    destruct (decide (0 <= idx)%Z).
    + rewrite (lookup_ge_None_2 positions) by lia. reflexivity.
    + rewrite decide_False by lia. reflexivity.
Qed.

Lemma getitem_sample_witness :
  ∃ features e o,
    __getitem__ [(starting_board, 36, "1-0")] zero_config (-1) =
      inr (mkSample features [e] [o]) ∧
    length features = 768%nat.
Proof.
  destruct (getitem_sample [(starting_board, 36, "1-0")] zero_config (-1)) as [Hin _].
  { simpl. lra. }
  destruct Hin as (features & e & o & Hget & Hlen & _).
  { unfold __len__. simpl. lia. }
  exists features, e, o. split; [exact Hget|exact Hlen].
Defined.

End Scores_and_samples.

(* ===================================================================== *)
(** * Properties of the data loading *)
(* ===================================================================== *)

Section Loading_facts.
Import Loading.

Context {E F : Type} (float_of : E → F) (md5_hexdigest : string → string).

Local Abbreviation hashes l := ((λ p : string * F * string, md5_hexdigest (fen_of p)) <$> l).
Local Abbreviation loop := (dedup_loop float_of md5_hexdigest).

Lemma dedup_loop_spec max_positions rows positions (seen : gset string) :
  (∀ h, h ∈ seen ↔ h ∈ hashes positions) →
  NoDup (hashes positions) →
  NoDup (hashes (loop max_positions rows positions seen)) ∧
  ∃ kept,
    loop max_positions rows positions seen = positions ++ kept ∧
    kept `sublist_of` (loaded_of float_of <$> rows).
Proof.
  revert positions seen.
  induction rows as [|[[[fen ev] res] mv] rows IH]; intros positions seen Hseen Hnd.
  - simpl. split; [exact Hnd|]. exists []. rewrite app_nil_r. split; [reflexivity|constructor].
  - cbn [dedup_loop]. destruct (decide (md5_hexdigest fen ∈ seen)) as [Hin|Hnin].
    + destruct (IH positions seen Hseen Hnd) as (Hnd' & kept & Heq & Hsub).
      split; [exact Hnd'|]. exists kept. split; [exact Heq|].
      rewrite fmap_cons. apply sublist_cons. exact Hsub.
    + cbv zeta.
      assert (Hnd' : NoDup (hashes (positions ++ [(fen, float_of ev, res)]))).
      { rewrite fmap_app. apply NoDup_app. split; [exact Hnd|].
        split; [|apply NoDup_singleton].
        intros h Hh Hh'. apply list_elem_of_singleton in Hh'. subst h.
        apply Hnin, Hseen, Hh. }
      assert (Hseen' : ∀ h, h ∈ ({[md5_hexdigest fen]} ∪ seen : gset string) ↔
                            h ∈ hashes (positions ++ [(fen, float_of ev, res)])).
      { intros h. rewrite fmap_app, elem_of_app, elem_of_union, elem_of_singleton, Hseen.
        simpl. rewrite list_elem_of_singleton. tauto. }
      destruct (decide (max_positions <= Z.of_nat (length (positions ++ [(fen, float_of ev, res)])))).
      * split; [exact Hnd'|].
        exists [(fen, float_of ev, res)]. split; [reflexivity|].
        rewrite fmap_cons. apply sublist_skip, sublist_nil_l.
      * destruct (IH _ _ Hseen' Hnd') as (Hnd'' & kept & Heq & Hsub).
        split; [exact Hnd''|].
        exists ((fen, float_of ev, res) :: kept).
        split; [rewrite Heq, <- app_assoc; reflexivity|].
        rewrite fmap_cons. apply sublist_skip. exact Hsub.
Qed.

Lemma dedup_loop_extends max_positions rows positions (seen : gset string) :
  ∃ kept, loop max_positions rows positions seen = positions ++ kept.
Proof.
  revert positions seen.
  induction rows as [|[[[fen ev] res] mv] rows IH]; intros positions seen.
  - exists []. simpl. rewrite app_nil_r. reflexivity.
  - cbn [dedup_loop]. destruct (decide (md5_hexdigest fen ∈ seen)); [apply IH|].
    cbv zeta. case_decide.
    + eexists. reflexivity.
    + destruct (IH (positions ++ [(fen, float_of ev, res)])
                  ({[md5_hexdigest fen]} ∪ seen)) as [kept ->].
      eexists. rewrite <- app_assoc. reflexivity.
Qed.

Lemma dedup_loop_bound max_positions rows positions (seen : gset string) :
  Z.of_nat (length positions) < max_positions →
  Z.of_nat (length (loop max_positions rows positions seen)) <= max_positions.
Proof.
  revert positions seen.
  induction rows as [|[[[fen ev] res] mv] rows IH]; intros positions seen Hlt.
  - simpl. lia.
  - cbn [dedup_loop]. destruct (decide (md5_hexdigest fen ∈ seen)); [apply IH; exact Hlt|].
    cbv zeta. case_decide as Hfull.
    + rewrite length_app in *. simpl in *. lia.
    + apply IH. lia.
Qed.

Lemma dedup_loop_start max_positions rows (seen : gset string) :
  Z.of_nat (length (loop max_positions rows [] seen)) <= Z.max 1 max_positions.
Proof.
  induction rows as [|[[[fen ev] res] mv] rows IH].
  - simpl. lia.
  - cbn [dedup_loop]. destruct (decide (md5_hexdigest fen ∈ seen)); [exact IH|].
    cbv zeta. case_decide as Hfull.
    + simpl. lia.
    + pose proof (dedup_loop_bound max_positions rows
                    ([] ++ [(fen, float_of ev, res)]) ({[md5_hexdigest fen]} ∪ seen)).
      simpl in *. lia.
Qed.

Lemma dedup_loop_complete max_positions rows positions (seen : gset string) :
  (∀ h, h ∈ seen ↔ h ∈ hashes positions) →
  Z.of_nat (length (loop max_positions rows positions seen)) < max_positions →
  ∀ row, row ∈ rows →
    md5_hexdigest row.1.1.1 ∈ hashes (loop max_positions rows positions seen).
Proof.
  revert positions seen.
  induction rows as [|[[[fen ev] res] mv] rows IH]; intros positions seen Hseen Hlt row Hrow.
  - apply elem_of_nil in Hrow. contradiction.
  - cbn [dedup_loop] in *.
    destruct (decide (md5_hexdigest fen ∈ seen)) as [Hin|Hnin].
    + apply elem_of_cons in Hrow as [->|Hrow]; [|apply IH; assumption].
      simpl.
      destruct (dedup_loop_extends max_positions rows positions seen) as [kept ->].
      rewrite fmap_app, elem_of_app. left. apply Hseen. exact Hin.
    + cbv zeta in *.
      assert (Hseen' : ∀ h, h ∈ ({[md5_hexdigest fen]} ∪ seen : gset string) ↔
                            h ∈ hashes (positions ++ [(fen, float_of ev, res)])).
      { intros h. rewrite fmap_app, elem_of_app, elem_of_union, elem_of_singleton, Hseen.
        simpl. rewrite list_elem_of_singleton. tauto. }
      destruct (decide (max_positions <= Z.of_nat (length (positions ++ [(fen, float_of ev, res)]))));
        [lia|].
      apply elem_of_cons in Hrow as [->|Hrow]; [|apply IH; assumption].
      simpl.
      destruct (dedup_loop_extends max_positions rows
                  (positions ++ [(fen, float_of ev, res)])
                  ({[md5_hexdigest fen]} ∪ seen)) as [kept ->].
      rewrite !fmap_app, !elem_of_app. left. right. simpl.
      apply list_elem_of_singleton. reflexivity.
Qed.

(** X9.  A successful load returns positions with pairwise different FENs
    (even pairwise different hashes), in the order in which the database
    returned them: the result is a subsequence of the fetched rows. *)
Theorem loaded_positions_unique (rows : list (string * E * string * Z)) (max_positions : Z) :
  ∃ positions,
    (load_training_data float_of md5_hexdigest (inr rows) max_positions).1 = inr positions ∧
    NoDup (hashes positions) ∧
    NoDup (fen_of <$> positions) ∧
    positions `sublist_of` (loaded_of float_of <$> rows).
Proof.
  unfold load_training_data. cbn [fst]. eexists. split; [reflexivity|].
  destruct (dedup_loop_spec max_positions rows [] ∅) as (Hnd & kept & Heq & Hsub).
  { intros h. simpl. rewrite elem_of_empty, elem_of_nil. tauto. }
  { constructor. }
  split; [exact Hnd|]. split.
  - apply (NoDup_fmap_1 md5_hexdigest). rewrite <- list_fmap_compose. exact Hnd.
  - rewrite Heq. exact Hsub.
Qed.

(** X10.  The number of loaded positions: at most [max_positions] when that
    is positive, and exactly one for a non-empty answer when
    [max_positions] is 1, 0 or negative, since the limit is only tested
    after a position has been appended. *)
Theorem loaded_positions_limit (rows : list (string * E * string * Z)) (max_positions : Z) :
  let positions := dedup_loop float_of md5_hexdigest max_positions rows [] ∅ in
  (load_training_data float_of md5_hexdigest (inr rows) max_positions).1 = inr positions ∧
  Z.of_nat (length positions) <= Z.max 1 max_positions ∧
  (max_positions <= 1 → rows ≠ [] → length positions = 1%nat) ∧
  (rows = [] → positions = []).
Proof.
  cbv zeta. split; [reflexivity|].
  split; [apply dedup_loop_start|].
  split.
  - intros Hmax Hne. destruct rows as [|[[[fen ev] res] mv] rows]; [contradiction|].
    cbn [dedup_loop]. rewrite decide_False by apply not_elem_of_empty.
    cbv zeta. rewrite decide_True by (simpl; lia). reflexivity.
  - intros ->. reflexivity.
Qed.

(** X11.  When the limit was not reached, nothing was left out: every
    fetched row has its FEN hash among the loaded positions. *)
Theorem loaded_positions_complete (rows : list (string * E * string * Z)) (max_positions : Z) :
  let positions := dedup_loop float_of md5_hexdigest max_positions rows [] ∅ in
  Z.of_nat (length positions) < max_positions →
  ∀ fen evaluation result move_number,
    (fen, evaluation, result, move_number) ∈ rows →
    ∃ p, p ∈ positions ∧ md5_hexdigest (fen_of p) = md5_hexdigest fen.
Proof.
  cbv zeta. intros Hlt fen ev res mv Hrow.
  pose proof (dedup_loop_complete max_positions rows [] ∅) as H.
  specialize (H ltac:(intros h; simpl; rewrite elem_of_empty, elem_of_nil; tauto)
                Hlt _ Hrow).
  simpl in H. apply list_elem_of_fmap in H as (p & Hp & Hin).
  exists p. split; [exact Hin|]. symmetry. exact Hp.
Qed.

End Loading_facts.

Section Loading_samples.
Import Loading.

Lemma loaded_positions_limit_witness :
  length (dedup_loop (λ z : Z, z) (λ fen, fen) 0
            [("8/8/8/8/8/8/8/K6k w - - 0 1", 12%Z, "1-0", 40%Z);
             ("8/8/8/8/8/8/8/K5k1 b - - 1 1", (-3)%Z, "1-0", 41%Z)] [] ∅) = 1%nat.
Proof.
  apply (loaded_positions_limit (λ z : Z, z) (λ fen, fen)
           [("8/8/8/8/8/8/8/K6k w - - 0 1", 12%Z, "1-0", 40%Z);
            ("8/8/8/8/8/8/8/K5k1 b - - 1 1", (-3)%Z, "1-0", 41%Z)] 0);
    [lia|discriminate].
Defined.

Lemma loaded_positions_complete_witness :
  ∃ p, p ∈ dedup_loop (λ z : Z, z) (λ fen, fen) 10
             [("a", 1%Z, "1-0", 20%Z); ("b", 2%Z, "0-1", 21%Z); ("a", 3%Z, "1-0", 22%Z)] [] ∅
       ∧ fen_of p = "a".
Proof.
  apply (loaded_positions_complete (λ z : Z, z) (λ fen, fen)
           [("a", 1%Z, "1-0", 20%Z); ("b", 2%Z, "0-1", 21%Z); ("a", 3%Z, "1-0", 22%Z)]
           10 ltac:(vm_compute; reflexivity) "a" 3%Z "1-0" 22%Z).
  rewrite !elem_of_cons. auto.
Defined.

End Loading_samples.

(* ===================================================================== *)
(** * Properties of the checkpoints *)
(* ===================================================================== *)

Section Training_facts.
Import Training.
Local Open Scope R_scope.

Lemma string_app_inv_head (s a b : string) : s +:+ a = s +:+ b → a = b.
Proof.
  induction s as [|ch s IH]; simpl; [tauto|].
  intros [= H]. apply IH, H.
Qed.

Lemma best_name_not_periodic model_name (n : Z) :
  checkpoint_name model_name "best" ≠
  checkpoint_name model_name ("epoch_" +:+ pretty n).
Proof.
  unfold checkpoint_name. intros H.
  apply string_app_inv_head in H. discriminate H.
Qed.

Lemma epochs_loop_best model_name save_frequency rest :
  save_frequency ≠ 0%Z →
  ∀ done best files,
    best_so_far model_name done best files →
    ∃ best' files',
      epochs_loop model_name save_frequency (length done) rest best files =
        (Finished best', files') ∧
      best_so_far model_name (done ++ rest) best' files'.
Proof.
  intros Hsf. induction rest as [|v rest IH]; intros done best files Hinv.
  - exists best, files. rewrite app_nil_r. split; [reflexivity|exact Hinv].
  - cbn [epochs_loop].
    set (step := if improves v best
                 then (Some v, _save_model model_name (length done) v "best" files)
                 else (best, files)).
    assert (Hstep : best_so_far model_name (done ++ [v]) step.1 step.2).
    { unfold step, improves. destruct best as [vb|].
      - destruct Hinv as (e & Hfile & He & Hmin & Hfirst).
        destruct (Rlt_dec v vb) as [Hlt|Hge]; cbn [fst snd best_so_far].
        + exists (length done). unfold _save_model. rewrite lookup_insert_eq.
          split; [reflexivity|].
          split; [rewrite lookup_app_r, Nat.sub_diag by lia; reflexivity|].
          split.
          * intros i x Hx. apply lookup_app_Some in Hx as [Hx|[_ Hx]].
            -- specialize (Hmin i x Hx). lra.
            -- apply list_lookup_singleton_Some in Hx as [_ <-]. lra.
          * intros i x Hi Hx. rewrite lookup_app_l in Hx by exact Hi.
            specialize (Hmin i x Hx). lra.
        + exists e. split; [exact Hfile|].
          split; [rewrite lookup_app_l; [exact He|apply lookup_lt_Some in He; exact He]|].
          split.
          * intros i x Hx. apply lookup_app_Some in Hx as [Hx|[_ Hx]].
            -- exact (Hmin i x Hx).
            -- apply list_lookup_singleton_Some in Hx as [_ <-]. lra.
          * intros i x Hi Hx. apply lookup_lt_Some in He.
            rewrite lookup_app_l in Hx by lia. exact (Hfirst i x Hi Hx).
      - cbn [best_so_far] in Hinv. subst done. cbn [fst snd best_so_far].
        exists 0%nat. unfold _save_model. rewrite lookup_insert_eq.
        split; [reflexivity|]. split; [reflexivity|].
        split.
        + intros [|i] x Hx; simpl in Hx; [injection Hx as <-; lra|].
          rewrite lookup_nil in Hx. discriminate.
        + intros i x Hi. lia. }
    destruct step as [best1 files1]. cbn [fst snd] in Hstep.
    rewrite decide_False by exact Hsf.
    set (files2 := if decide ((Z.of_nat (length done) + 1) mod save_frequency = 0)%Z
                   then _ else files1).
    assert (Hstep2 : best_so_far model_name (done ++ [v]) best1 files2).
    { destruct best1 as [vb|]; [|exact Hstep].
      destruct Hstep as (e & Hfile & Hrest). exists e. split; [|exact Hrest].
      unfold files2. case_decide; [|exact Hfile].
      unfold _save_model. rewrite lookup_insert_ne; [exact Hfile|].
      apply not_eq_sym, best_name_not_periodic. }
    destruct (IH (done ++ [v]) best1 files2 Hstep2) as (best' & files' & Hrun & Hinv').
    rewrite length_app, Nat.add_1_r in Hrun.
    exists best', files'. split; [exact Hrun|].
    rewrite <- app_assoc in Hinv'. exact Hinv'.
Qed.

(** X12.  With a non-zero [save_frequency] and at least one epoch, the loop
    finishes and the file ["<model_name>_best.pth"] holds the first epoch
    whose validation loss is the lowest of the run, together with that
    loss. *)
Theorem best_checkpoint_is_first_minimum model_name (save_frequency : Z)
    (val_losses : list R) :
  save_frequency ≠ 0%Z →
  val_losses ≠ [] →
  ∃ e v files,
    training_checkpoints model_name save_frequency val_losses =
      (Finished (Some v), files) ∧
    files !! (model_name +:+ "_best.pth") = Some (mkCheckpoint e v) ∧
    val_losses !! e = Some v ∧
    (∀ i x, val_losses !! i = Some x → v <= x) ∧
    (∀ i x, (i < e)%nat → val_losses !! i = Some x → v < x).
Proof.
  intros Hsf Hne. unfold training_checkpoints.
  destruct (epochs_loop_best model_name save_frequency val_losses Hsf [] None ∅)
    as (best & files & Hrun & Hinv); [reflexivity|].
  simpl in Hrun, Hinv. destruct best as [v|]; [|contradiction].
  destruct Hinv as (e & Hfile & He & Hmin & Hfirst).
  exists e, v, files. split; [exact Hrun|].
  split; [exact Hfile|]. split; [exact He|]. split; [exact Hmin|exact Hfirst].
Qed.

Lemma best_checkpoint_is_first_minimum_witness :
  ∃ files,
    training_checkpoints "chess_nnue" 10 [3; 1; 2; 1] = (Finished (Some 1), files) ∧
    files !! "chess_nnue_best.pth" = Some (mkCheckpoint 1 1).
Proof.
  destruct (best_checkpoint_is_first_minimum "chess_nnue" 10 [3; 1; 2; 1])
    as (e & v & files & Hrun & Hfile & He & Hmin & Hfirst); [discriminate..|].
  assert (Hv : v = 1).
  { apply Rle_antisym.
    - apply (Hmin 1%nat 1). reflexivity.
    - destruct e as [|[|[|[|e]]]]; simpl in He; try discriminate;
        injection He as <-; lra. }
  subst v.
  assert (He1 : e = 1%nat).
  { destruct e as [|[|e]]; [simpl in He; injection He; lra|reflexivity|].
    exfalso. specialize (Hfirst 1%nat 1 ltac:(lia) eq_refl). lra. }
  subst e. exists files. split; [exact Hrun|exact Hfile].
Defined.

(** X13.  With [save_frequency = 0] the first epoch ends in
    [ZeroDivisionError] at the test [(epoch + 1) % save_frequency]: the only
    checkpoint written is the "best" one of epoch 0, and no later epoch
    runs. *)
Theorem zero_save_frequency_aborts model_name (val_loss : R) (rest : list R) :
  training_checkpoints model_name 0 (val_loss :: rest) =
  (ZeroDivisionError,
   {[ model_name +:+ "_best.pth" := mkCheckpoint 0 val_loss ]}).
Proof. reflexivity. Qed.

Lemma string_length_app (a b : string) :
  String.length (a +:+ b) = (String.length a + String.length b)%nat.
Proof. induction a as [|ch a IH]; simpl; [|rewrite IH]; reflexivity. Qed.

Lemma string_app_inv_tail (a b t : string) : a +:+ t = b +:+ t → a = b.
Proof.
  revert b. induction a as [|ch a IH]; intros [|ch' b] H; simpl in H.
  - reflexivity.
  - exfalso. apply (f_equal String.length) in H. simpl in H.
    rewrite !string_length_app in H. simpl in H. lia.
  - exfalso. apply (f_equal String.length) in H. simpl in H.
    rewrite !string_length_app in H. simpl in H. lia.
  - injection H as -> H. f_equal. apply IH, H.
Qed.

Lemma periodic_name_inj model_name (a b : Z) :
  checkpoint_name model_name ("epoch_" +:+ pretty a) =
  checkpoint_name model_name ("epoch_" +:+ pretty b) → a = b.
Proof.
  unfold checkpoint_name. intros H.
  apply string_app_inv_head in H. simpl in H. injection H as H.
  apply string_app_inv_tail in H. exact (inj pretty _ _ H).
Qed.

Lemma epochs_loop_periodic model_name save_frequency rest :
  save_frequency ≠ 0%Z →
  ∀ done best files,
    periodic_so_far model_name save_frequency done files →
    ∃ best' files',
      epochs_loop model_name save_frequency (length done) rest best files =
        (Finished best', files') ∧
      periodic_so_far model_name save_frequency (done ++ rest) files'.
Proof.
  intros Hsf. induction rest as [|v rest IH]; intros done best files Hinv.
  - exists best, files. rewrite app_nil_r. split; [reflexivity|exact Hinv].
  - cbn [epochs_loop].
    set (step := if improves v best
                 then (Some v, _save_model model_name (length done) v "best" files)
                 else (best, files)).
    assert (Hstep : periodic_so_far model_name save_frequency done step.2).
    { unfold step. destruct (improves v best); [|exact Hinv].
      intros n ck. cbn [snd]. unfold _save_model.
      rewrite lookup_insert_ne by apply best_name_not_periodic. apply Hinv. }
    destruct step as [best1 files1]. cbn [snd] in Hstep.
    rewrite decide_False by exact Hsf.
    set (files2 := if decide ((Z.of_nat (length done) + 1) mod save_frequency = 0)%Z
                   then _ else files1).
    assert (Hstep2 : periodic_so_far model_name save_frequency (done ++ [v]) files2).
    { unfold periodic_so_far in Hstep.
      intros n ck. unfold files2, _save_model.
      destruct (decide (n = Z.of_nat (length done) + 1)%Z) as [->|Hn].
      - case_decide as Hmod.
        + rewrite lookup_insert_eq. split.
          * intros [= <-]. exists (length done), v.
            rewrite lookup_app_r, Nat.sub_diag by lia. auto.
          * intros (j & x & Hj & Hx & _ & ->).
            assert (j = length done) as -> by lia.
            rewrite lookup_app_r, Nat.sub_diag in Hx by lia.
            injection Hx as <-. reflexivity.
        + rewrite Hstep. split.
          * intros (j & x & Hj & Hx & _). apply lookup_lt_Some in Hx. lia.
          * intros (j & x & _ & _ & Hmod' & _). contradiction.
      - assert (Hlook : (if decide ((Z.of_nat (length done) + 1) mod save_frequency = 0)%Z
                         then <[checkpoint_name model_name
                                  ("epoch_" +:+ pretty (Z.of_nat (length done) + 1)%Z)
                                :=mkCheckpoint (length done) v]> files1
                         else files1)
                        !! checkpoint_name model_name ("epoch_" +:+ pretty n) =
                        files1 !! checkpoint_name model_name ("epoch_" +:+ pretty n)).
        { case_decide; [|reflexivity].
          apply lookup_insert_ne. intros Hname. apply periodic_name_inj in Hname. lia. }
        rewrite Hlook, Hstep. split.
        + intros (j & x & Hj & Hx & Hrest). exists j, x.
          split; [exact Hj|]. split; [|exact Hrest].
          apply lookup_app_l_Some. exact Hx.
        + intros (j & x & Hj & Hx & Hrest). exists j, x.
          split; [exact Hj|]. split; [|exact Hrest].
          apply lookup_app_Some in Hx as [Hx|[Hge Hx]]; [exact Hx|].
          apply list_lookup_singleton_Some in Hx as [Hz _]. lia. }
    destruct (IH (done ++ [v]) best1 files2 Hstep2) as (best' & files' & Hrun & Hinv').
    rewrite length_app, Nat.add_1_r in Hrun.
    exists best', files'. split; [exact Hrun|].
    rewrite <- app_assoc in Hinv'. exact Hinv'.
Qed.

(** X14.  With a non-zero [save_frequency] the loop finishes, and the files
    ["<model_name>_epoch_<n>.pth"] it leaves are exactly those for the
    epoch numbers [n] from 1 to the number of epochs that [save_frequency]
    divides; each one holds epoch index [n - 1] and its validation loss. *)
Theorem periodic_checkpoints model_name (save_frequency : Z) (val_losses : list R) :
  save_frequency ≠ 0%Z →
  ∃ best files,
    training_checkpoints model_name save_frequency val_losses = (Finished best, files) ∧
    ∀ (n : Z) ck,
      files !! (model_name +:+ "_epoch_" +:+ pretty n +:+ ".pth") = Some ck ↔
      (1 <= n <= Z.of_nat (length val_losses))%Z ∧
      (n mod save_frequency = 0)%Z ∧
      ∃ x, val_losses !! Z.to_nat (n - 1) = Some x ∧
           ck = mkCheckpoint (Z.to_nat (n - 1)) x.
Proof.
  intros Hsf. unfold training_checkpoints.
  destruct (epochs_loop_periodic model_name save_frequency val_losses Hsf [] None ∅)
    as (best & files & Hrun & Hinv).
  { intros n ck. rewrite lookup_empty. split; [discriminate|].
    intros (j & x & _ & Hx & _). rewrite lookup_nil in Hx. discriminate. }
  simpl in Hrun, Hinv. exists best, files. split; [exact Hrun|].
  intros n ck.
  change (model_name +:+ "_epoch_" +:+ pretty n +:+ ".pth")
    with (checkpoint_name model_name ("epoch_" +:+ pretty n)).
  rewrite (Hinv n ck). split.
  - intros (j & x & -> & Hx & Hmod & ->).
    pose proof (lookup_lt_Some _ _ _ Hx).
    replace (Z.to_nat (Z.of_nat j + 1 - 1)) with j by lia.
    split; [lia|]. split; [exact Hmod|]. exists x. auto.
  - intros (Hn & Hmod & x & Hx & ->).
    exists (Z.to_nat (n - 1)), x. split; [lia|]. auto.
Qed.

Lemma periodic_checkpoints_witness :
  ∃ best files,
    training_checkpoints "chess_nnue" 2 [3; 1; 2] = (Finished best, files) ∧
    files !! "chess_nnue_epoch_2.pth" = Some (mkCheckpoint 1 1) ∧
    files !! "chess_nnue_epoch_3.pth" = None.
Proof.
  destruct (periodic_checkpoints "chess_nnue" 2 [3; 1; 2]) as (best & files & Hrun & Hfiles);
    [discriminate|].
  exists best, files. split; [exact Hrun|]. split.
  - apply (Hfiles 2%Z). split; [simpl; lia|]. split; [reflexivity|].
    exists 1. split; reflexivity.
  - destruct (files !! "chess_nnue_epoch_3.pth") as [ck|] eqn:Hck; [|reflexivity].
    apply (Hfiles 3%Z) in Hck as (_ & Hmod & _). discriminate Hmod.
Defined.

End Training_facts.

(* ===================================================================== *)
(** * Properties of the trainer's export *)
(* ===================================================================== *)

Section TrainerExport_facts.
Import Arch Exporter TrainerExport.
Local Open Scope io_scope.

Context {scalar : Type} (float32_bits : scalar → Z).
Context (log_record : string → string → string) (path_join : string → string → string).






(** X16.  The header takes [output_size] from the configuration although
    the network always has one output.  When that field does not fit an
    unsigned 32-bit number and the device is healthy, [struct.pack] raises,
    the export stops after the first four fields and leaves a 16-byte file
    without any parameter; the call still returns normally and logs one
    error record "Export failed: <text>", the text being the one of
    [struct.error]: "argument out of range" for a negative value (and from
    [2^64] on), the format's bounds for a value from [2^32] to [2^64 - 1]. *)
Theorem trainer_export_bad_output_size (model : NNUE scalar) cfg
    model_name output_dir suffix w :
  fits_u32 (input_size cfg) → fits_u32 (hidden_size cfg) →
  ¬ fits_u32 (output_size cfg) →
  (5 ≤ io_budget w)%nat →
  let result :=
    _export_nnue float32_bits log_record path_join
      model cfg model_name output_dir suffix w in
  result.1 = inr tt ∧
  file result.2 =
    Some (list_byte_of_string "NNUE" ++ le_bytes 4 1 ++
          le_bytes 4 (input_size cfg) ++ le_bytes 4 (hidden_size cfg)) ∧
  io_calls result.2 = (io_calls w + 5)%nat ∧
  ∃ text : string,
    stdout result.2 =
      stdout w ++ [log_record "ERROR" ("Export failed: " +:+ text)] ∧
    (output_size cfg < 0 → text = "argument out of range") ∧
    (4294967296 <= output_size cfg < 18446744073709551616 →
     text = "'I' format requires 0 <= number <= 4294967295") ∧
    (18446744073709551616 <= output_size cfg → text = "argument out of range").
Proof.
  intros Hi Hh Ho Hbudget. cbv zeta.
  assert (Hrun :
    _export_nnue float32_bits log_record path_join
      model cfg model_name output_dir suffix w =
    (inr tt,
     mkWorld
       (Some (list_byte_of_string "NNUE" ++ le_bytes 4 1 ++
              le_bytes 4 (input_size cfg) ++ le_bytes 4 (hidden_size cfg)))
       (stdout w ++
        [log_record "ERROR"
           ("Export failed: " +:+ struct_error_I (output_size cfg))])
       (io_budget w - 5) (io_error w) (io_calls w + 5))).
  { unfold _export_nnue. cbv zeta. unfold try_except, export_nnue_body.
    rewrite (struct_pack_I_ok 1) by (split; [discriminate|reflexivity]).
    rewrite (struct_pack_I_ok (input_size cfg)) by exact Hi.
    rewrite (struct_pack_I_ok (hidden_size cfg)) by exact Hh.
    unfold struct_pack_I. unfold fits_u32 in Ho. rewrite decide_False by exact Ho.
    destruct w as [f out b err n]. cbn [io_budget] in Hbudget.
    destruct b as [|[|[|[|[|b]]]]]; try lia.
    unfold bind, open_wb, write, device_call, ret, raise, logger_error, print.
    cbn [fst snd file stdout io_budget io_error io_calls default str_exn].
    f_equal. f_equal; try lia. }
  rewrite Hrun. cbn [fst snd file stdout io_calls].
  split; [reflexivity|]. split; [reflexivity|]. split; [reflexivity|].
  exists (struct_error_I (output_size cfg)). split; [reflexivity|].
  unfold struct_error_I.
  change (2 ^ 64) with 18446744073709551616.
  repeat split; intros Hz; case_decide; (reflexivity || lia).
Qed.

End TrainerExport_facts.

(* ===================================================================== *)
(** * Properties of the comparison with an engine *)
(* ===================================================================== *)

Section Compare_facts.
Import HalfKP Arch Net Dataset Compare.

Lemma evaluate_position_in_range cfg ft0 ft2 out1 out3 (board : Board) :
  init_shapes cfg ft0 ft2 out1 out3 →
  input_size cfg = 768 →
  (0 < eval_scale cfg)%R →
  ∃ y : R,
    forward (NNUE_init cfg ft0 ft2 out1 out3)
      (tensor_of_features (_get_halfkp_features board (turn board))) = Some [y] ∧
    (-1 <= y <= 1)%R ∧
    evaluate_position (NNUE_init cfg ft0 ft2 out1 out3) board =
      Some (to_external_score (eval_scale cfg) y (turn board)) ∧
    (Rabs (to_external_score (eval_scale cfg) y (turn board)) <= eval_scale cfg)%R.
Proof.
  intros Hs Hin Hpos.
  destruct (forward_scalar cfg ft0 ft2 out1 out3
              (tensor_of_features (_get_halfkp_features board (turn board))) Hs)
    as (z & _ & Hf).
  { unfold tensor_of_features. rewrite length_map, features_length, Hin. reflexivity. }
  destruct (float32_tanh_range z) as [Hb _].
  exists (float32_tanh z). split; [exact Hf|]. split; [exact Hb|]. split.
  - unfold evaluate_position, position_to_features.
    destruct (turn board); rewrite Hf; reflexivity.
  - unfold to_external_score. apply Rabs_le; destruct (turn board); nra.
Qed.

Lemma neg_score_mate s : is_Some (mate (neg_score s)) ↔ is_Some (mate s).
Proof.
  destruct s as [cp|moves|]; simpl; [tauto| |split; eauto].
  destruct (decide (moves = 0)); simpl; split; eauto.
Qed.



(** X18.  Training targets and evaluation are consistent: when the stored
    evaluation of a position is the score that [evaluate_position] gives it
    (model built by [NNUE.__init__] for 768 inputs, positive scale), the
    sample that [__getitem__] builds for it has the features that the
    evaluator fed to the network and, as its target, exactly the network's
    output on them. *)
Theorem sample_matches_evaluation cfg ft0 ft2 out1 out3 (board : Board) (result : string) :
  init_shapes cfg ft0 ft2 out1 out3 →
  input_size cfg = 768 →
  (0 < eval_scale cfg)%R →
  ∃ (score : R) (features target : vec) (outcome : R),
    evaluate_position (NNUE_init cfg ft0 ft2 out1 out3) board = Some score ∧
    __getitem__ [(board, score, result)] cfg 0 =
      inr (mkSample features target [outcome]) ∧
    forward (NNUE_init cfg ft0 ft2 out1 out3) features = Some target.
Proof.
  intros Hs Hin Hpos.
  destruct (evaluate_position_in_range cfg ft0 ft2 out1 out3 board Hs Hin Hpos)
    as (y & Hf & Hy & Heval & _).
  exists (to_external_score (eval_scale cfg) y (turn board)),
         (tensor_of_features (_get_halfkp_features board (turn board))),
         [y], (outcome_of result (turn board)).
  split; [exact Heval|]. split; [|exact Hf].
  unfold __getitem__, list_index. rewrite decide_True by lia.
  change (Z.to_nat 0) with 0%nat. cbn [lookup list_lookup].
  unfold position_to_features.
  destruct (Req_dec_T (eval_scale cfg) 0) as [H0|_]; [lra|].
  assert (Htarget : to_training_target (eval_scale cfg)
            (to_external_score (eval_scale cfg) y (turn board)) (turn board) = y).
  { unfold to_training_target, to_external_score, clip. cbv zeta.
    assert (Hq : (match turn board with
                  | WHITE => match turn board with
                             | BLACK => - (y * eval_scale cfg)
                             | WHITE => y * eval_scale cfg
                             end
                  | BLACK => - match turn board with
                               | BLACK => - (y * eval_scale cfg)
                               | WHITE => y * eval_scale cfg
                               end
                  end / eval_scale cfg = y)%R).
    { destruct (turn board); field; lra. }
    rewrite Hq. rewrite Rmax_left by lra. rewrite Rmin_left by lra. reflexivity. }
  rewrite Htarget. destruct (turn board); reflexivity.
Qed.

Lemma sample_matches_evaluation_witness :
  ∃ (score : R) (features target : vec) (outcome : R),
    evaluate_position zero_model starting_board = Some score ∧
    __getitem__ [(starting_board, score, "1/2-1/2")] zero_config 0 =
      inr (mkSample features target [outcome]) ∧
    forward zero_model features = Some target.
Proof.
  apply (sample_matches_evaluation zero_config
           (const_linear 768 256 0%R) (const_linear 256 32 0%R)
           (const_linear 32 32 0%R) (const_linear 32 1 0%R)
           starting_board "1/2-1/2" zero_model_shapes eq_refl).
  simpl. lra.
Defined.

End Compare_facts.

Section TrainerExport_samples.
Import Arch Exporter TrainerExport.


Lemma trainer_export_bad_output_size_witness :
  let result :=
    _export_nnue sample_bits sample_record sample_join
      (exp_model exporter_2_1) (mkConfig 2 1 (-1) 361)
      "chess_nnue" "models" "final" (device 14) in
  file result.2
  = Some (list_byte_of_string "NNUE" ++ le_bytes 4 1 ++ le_bytes 4 2 ++ le_bytes 4 1) ∧
  stdout result.2 = ["ERROR - Export failed: argument out of range"].
Proof.
  assert (Hbudget : (5 ≤ io_budget (device 14))%nat) by (simpl; lia).
  destruct (trainer_export_bad_output_size sample_bits sample_record sample_join
              (exp_model exporter_2_1) (mkConfig 2 1 (-1) 361)
              "chess_nnue" "models" "final" (device 14))
    as (_ & Hfile & _ & text & Hout & Hneg & _);
    [vm_compute; split; [discriminate|reflexivity]..| |exact Hbudget|].
  { unfold fits_u32. simpl. lia. }
  cbv zeta. split; [exact Hfile|].
  rewrite Hout, Hneg by (simpl; lia). reflexivity.
Defined.

End TrainerExport_samples.
